(** * LogisTech warehouse controller: a shallow embedding of
    [warehouse_system.py] and the properties of its allocation algorithms.

    The embedding follows the Python source class by class.  Python integers
    are [Z]; strings are [string]; a Python list is a [list], indexed from 0,
    with [append]/[pop] acting on its end.  A call that may raise returns an
    [outcome]; the [while] loop of the binary search is driven by a fuel
    counter, and the fuel handed to it is shown to be always sufficient.

    The SQLite connection, the [shipment_logs] table and the console are the
    external collaborators of the controller: rows fetched from the [bins]
    table are an argument of [load_inventory], and what the code prints is
    returned as a list of [Report]s. *)

From Stdlib Require Import ZArith String Lia Sorted Permutation.
From stdpp Require Import base list.
From Equations Require Import Equations.

Open Scope string_scope.
Open Scope list_scope.
Open Scope Z_scope.

(** ** Outcomes of a call *)

Inductive Exn : Type :=
| ValueError (msg : string)
| IndexError.

Inductive outcome (A : Type) : Type :=
| Ok (a : A)
| Raise (e : Exn)
| OutOfFuel.
Arguments Ok {A} a.
Arguments Raise {A} e.
Arguments OutOfFuel {A}.

Definition bind {A B : Type} (m : outcome A) (k : A -> outcome B) : outcome B :=
  match m with
  | Ok a => k a
  | Raise e => Raise e
  | OutOfFuel => OutOfFuel
  end.

Notation "x <- m ;; k" := (bind m (fun x => k))
  (at level 100, m at level 99, right associativity).

Definition inspect {A : Type} (a : A) : {b : A | a = b} := exist _ a eq_refl.

(** ** Python list primitives *)

(** [l[i]]: a negative index counts from the end, an index out of range
    raises [IndexError].  The position actually read comes back with the
    element: it stands for the reference to the object stored there. *)
Definition getitem {A : Type} (l : list A) (i : Z) : outcome (nat * A) :=
  let n := Z.of_nat (length l) in
  let j := if i <? 0 then i + n else i in
  if (j <? 0) || (n <=? j) then Raise IndexError
  else match l !! Z.to_nat j with
       | Some x => Ok (Z.to_nat j, x)
       | None => Raise IndexError
       end.

(** [l.pop()]: removes and returns the last element; raises on []. *)
Definition list_pop {A : Type} (l : list A) : outcome (A * list A) :=
  match last l with
  | Some x => Ok (x, removelast l)
  | None => Raise IndexError
  end.

(** [l.sort()]: the sort is stable and compares elements with [__lt__]
    only.  An element is placed after every element that is not greater,
    so elements that [lt] does not separate keep their input order.  For
    bins, [stable_sort_unique] shows that this fixes the result. *)
Section ListSort.
Context {A : Type} (lt : A -> A -> bool).

Fixpoint sort_insert (x : A) (l : list A) : list A :=
  match l with
  | [] => [x]
  | e :: r => if lt e x then e :: sort_insert x r else x :: e :: r
  end.

Fixpoint list_sort (l : list A) : list A :=
  match l with
  | [] => []
  | x :: r => sort_insert x (list_sort r)
  end.
End ListSort.

(** ** Models *)

Module Package.
Record t : Type := mk {
  tracking_id : string;
  size : Z;
  destination : string
}.
End Package.

Module StorageBin.
Record t : Type := mk {
  bin_id : Z;
  capacity : Z;
  location_code : string;
  used_space : Z
}.

(** [StorageBin(bin_id, capacity, location_code)] *)
Definition init (bin_id capacity : Z) (location_code : string) : t :=
  mk bin_id capacity location_code 0.

(** [self.used_space = u] *)
Definition set_used_space (self : t) (u : Z) : t :=
  mk (bin_id self) (capacity self) (location_code self) u.

(** Mutates [self]: the bin after the call comes back with the outcome
    of the call. *)
Definition occupy_space (self : t) (amount : Z) : t * outcome unit :=
  if used_space self + amount >? capacity self
  then (self, Raise (ValueError "Bin Full"))
  else (set_used_space self (used_space self + amount), Ok tt).

Definition available_space (self : t) : Z :=
  capacity self - used_space self.

(** [__lt__] *)
Definition lt (self other : t) : bool :=
  capacity self <? capacity other.
End StorageBin.

(** What the controller prints, one entry per [print] that reports on a
    package or on the truck. *)
Inductive Report : Type :=
| Stored (tracking_id : string) (size : Z) (bin_id : Z)
| ErrorStoring (tracking_id : string) (e : Exn)
| NoSuitableBin (tracking_id : string) (size : Z)
| LoadedOntoTruck (tracking_id : string)
| UndoRemoved (tracking_id : string)
| TruckEmpty.

(** ** The controller *)

Module WarehouseController.

(** The in-memory fields of the singleton.  [conveyor] is the FIFO queue
    (front of the list = next to leave), [truck_stack] has its top at the
    end of the list. *)
Record t : Type := mk {
  bins : list StorageBin.t;
  conveyor : list Package.t;
  truck_stack : list Package.t
}.

Definition init : t := mk [] [] [].

(** A row of [SELECT bin_id, capacity, current_usage, location_code]. *)
Definition Row : Type := (Z * Z * Z * string)%type.

Definition bin_of_row (r : Row) : StorageBin.t :=
  let '(r0, r1, r2, r3) := r in
  StorageBin.set_used_space (StorageBin.init r0 r1 r3) r2.

Definition load_inventory (self : t) (rows : list Row) : t :=
  mk (list_sort StorageBin.lt (map bin_of_row rows))
     (conveyor self) (truck_stack self).

Definition add_to_conveyor (self : t) (pkg : Package.t) : t :=
  mk (bins self) (conveyor self ++ [pkg]) (truck_stack self).

(** The test of line 105. *)
Definition fits (curr : StorageBin.t) (pkg : Package.t) : bool :=
  (StorageBin.capacity curr >=? Package.size pkg)
  && (StorageBin.available_space curr >=? Package.size pkg).

(** The [while low <= high] loop.  [best_fit] refers to an object of
    [self.bins]: it is kept as the position of that object together with
    the fields it has during the search. *)
Fixpoint search_loop (fuel : nat) (bins : list StorageBin.t) (pkg : Package.t)
    (low high : Z) (best_fit : option (nat * StorageBin.t))
    : outcome (option (nat * StorageBin.t)) :=
  if low <=? high then
    match fuel with
    | O => OutOfFuel
    | S fuel' =>
        let mid := (low + high) / 2 in
        curr <- getitem bins mid ;;
        if fits (snd curr) pkg
        then search_loop fuel' bins pkg low (mid - 1) (Some curr)
        else search_loop fuel' bins pkg (mid + 1) high best_fit
    end
  else Ok best_fit.

Definition find_bin_binary_search (bins : list StorageBin.t) (pkg : Package.t)
    : outcome (option (nat * StorageBin.t)) :=
  search_loop (length bins) bins pkg 0 (Z.of_nat (length bins) - 1) None.

(** The body of the conveyor loop for one package, as it acts on memory: the
    bins after it and the line printed.  [occupy_space] acts on the object
    found, that is, on the entry of [bins] at the position found;
    [except Exception] turns what it raises into a printed line.  The two
    calls that follow it inside the [try], [update_bin_db] and [log_action],
    write to the database and are taken here to be executed by the store;
    [store_package_db] below has them. *)
Definition store_package (bins : list StorageBin.t) (pkg : Package.t)
    : outcome (list StorageBin.t * Report) :=
  target_bin <- find_bin_binary_search bins pkg ;;
  match target_bin with
  | Some (pos, curr) =>
      let (curr', occupied) :=
        StorageBin.occupy_space curr (Package.size pkg) in
      let bins' := <[pos := curr']> bins in
      match occupied with
      | Ok _ =>
          Ok (bins', Stored (Package.tracking_id pkg) (Package.size pkg)
                            (StorageBin.bin_id curr'))
      | Raise e => Ok (bins', ErrorStoring (Package.tracking_id pkg) e)
      | OutOfFuel => OutOfFuel
      end
  | None =>
      Ok (bins, NoSuitableBin (Package.tracking_id pkg) (Package.size pkg))
  end.

(** [while not self.conveyor.empty()]: one [get] per iteration. *)
Fixpoint conveyor_loop (queue : list Package.t) (bins : list StorageBin.t)
    : outcome (list StorageBin.t * list Report) :=
  match queue with
  | [] => Ok (bins, [])
  | pkg :: queue' =>
      stored <- store_package bins pkg ;;
      rest <- conveyor_loop queue' (fst stored) ;;
      Ok (fst rest, snd stored :: snd rest)
  end.

Definition run_conveyor (self : t) : outcome (t * list Report) :=
  run <- conveyor_loop (conveyor self) (bins self) ;;
  Ok (mk (fst run) [] (truck_stack self), snd run).

Definition load_truck (self : t) (pkg : Package.t) : t * list Report :=
  (mk (bins self) (conveyor self) (truck_stack self ++ [pkg]),
   [LoadedOntoTruck (Package.tracking_id pkg)]).

Definition undo_last_load (self : t)
    : outcome (t * option Package.t * list Report) :=
  match truck_stack self with
  | _ :: _ =>
      popped <- list_pop (truck_stack self) ;;
      let pkg := fst popped in
      Ok (mk (bins self) (conveyor self) (snd popped), Some pkg,
          [UndoRemoved (Package.tracking_id pkg)])
  | [] => Ok (self, None, [TruckEmpty])
  end.

(** *** [optimize_truck_space]

    The variables shared by the calls of the inner function [solve]:
    [best_combo] and [max_filled] are its [nonlocal]s, [current_combo] is
    the one list object that every call receives, appends to and pops
    from. *)
Record Search : Type := mkSearch {
  current_combo : list Package.t;
  best_combo : list Package.t;
  max_filled : Z
}.

(** Lines 135-137; [list(current_combo)] is a copy. *)
Definition record_best (current_size : Z) (s : Search) : Search :=
  if current_size >? max_filled s
  then mkSearch (current_combo s) (current_combo s) current_size
  else s.

(** [current_combo.append(pkg)] *)
Definition combo_append (pkg : Package.t) (s : Search) : Search :=
  mkSearch (current_combo s ++ [pkg]) (best_combo s) (max_filled s).

(** [current_combo.pop()], the result dropped *)
Definition combo_pop (s : Search) : outcome Search :=
  popped <- list_pop (current_combo s) ;;
  Ok (mkSearch (snd popped) (best_combo s) (max_filled s)).

Equations? solve (packages : list Package.t) (max_cap : Z)
    (idx : nat) (current_size : Z) (s : Search)
    : outcome Search by wf (length packages - idx)%nat lt :=
  solve packages max_cap idx current_size s
    with inspect (Nat.eqb idx (length packages)) := {
    | exist _ true _ := Ok (record_best current_size s);
    | exist _ false Hidx with inspect (packages !! idx) := {
      | exist _ None _ := Raise IndexError;
      | exist _ (Some pkg) Hpkg
          with inspect (current_size + Package.size pkg <=? max_cap) := {
        | exist _ true _
            with solve packages max_cap (S idx)
                   (current_size + Package.size pkg)
                   (combo_append pkg (record_best current_size s)) := {
          | Ok s1 with combo_pop s1 := {
            | Ok s2 := solve packages max_cap (S idx) current_size s2;
            | Raise e := Raise e;
            | OutOfFuel := OutOfFuel };
          | Raise e := Raise e;
          | OutOfFuel := OutOfFuel };
        | exist _ false _ :=
            solve packages max_cap (S idx) current_size
              (record_best current_size s) } } }.
Proof.
  all: apply lookup_lt_Some in Hpkg; lia.
Qed.

Definition optimize_truck_space (packages : list Package.t) (max_cap : Z)
    : outcome (list Package.t) :=
  s <- solve packages max_cap 0 0 (mkSearch [] [] 0) ;;
  Ok (best_combo s).

(** The same recursion with a bound on its depth: every call of [solve]
    spends one unit of [fuel]. *)
Fixpoint solve_fuel (fuel : nat) (packages : list Package.t) (max_cap : Z)
    (idx : nat) (current_size : Z) (s : Search) : outcome Search :=
  match fuel with
  | O => OutOfFuel
  | S fuel' =>
      let s0 := record_best current_size s in
      if Nat.eqb idx (length packages) then Ok s0
      else match packages !! idx with
           | None => Raise IndexError
           | Some pkg =>
               if current_size + Package.size pkg <=? max_cap
               then
                 s1 <- solve_fuel fuel' packages max_cap (S idx)
                         (current_size + Package.size pkg)
                         (combo_append pkg s0) ;;
                 s2 <- combo_pop s1 ;;
                 solve_fuel fuel' packages max_cap (S idx) current_size s2
               else
                 solve_fuel fuel' packages max_cap (S idx) current_size s0
           end
  end.

(** *** The calls a client can make, for statements about every run *)
Inductive Op : Type :=
| LoadInventory (rows : list Row)
| AddToConveyor (pkg : Package.t)
| RunConveyor
| LoadTruck (pkg : Package.t)
| UndoLastLoad
| OptimizeTruckSpace (packages : list Package.t) (max_cap : Z)
| OccupySpace (pos : nat) (amount : Z).

(** The controller after one call; a call whose result is not used keeps
    only its effect on the fields.  [OccupySpace pos amount] is
    [self.bins[pos].occupy_space(amount)] made by a client that handles
    what it raises. *)
Definition apply_op (op : Op) (self : t) : outcome t :=
  match op with
  | LoadInventory rows => Ok (load_inventory self rows)
  | AddToConveyor pkg => Ok (add_to_conveyor self pkg)
  | RunConveyor => run <- run_conveyor self ;; Ok (fst run)
  | LoadTruck pkg => Ok (fst (load_truck self pkg))
  | UndoLastLoad => undone <- undo_last_load self ;; Ok (fst (fst undone))
  | OptimizeTruckSpace packages max_cap =>
      _ <- optimize_truck_space packages max_cap ;; Ok self
  | OccupySpace pos amount =>
      match getitem (bins self) (Z.of_nat pos) with
      | Ok curr =>
          Ok (mk (<[fst curr :=
                      fst (StorageBin.occupy_space (snd curr) amount)]>
                    (bins self))
                 (conveyor self) (truck_stack self))
      | _ => Ok self
      end
  end.

Fixpoint apply_ops (ops : list Op) (self : t) : outcome t :=
  match ops with
  | [] => Ok self
  | op :: ops' => self' <- apply_op op self ;; apply_ops ops' self'
  end.

End WarehouseController.

(** ** Vocabulary of the statements *)

Import WarehouseController.

Definition total_size (packages : list Package.t) : Z :=
  foldr (fun pkg acc => Package.size pkg + acc) 0 packages.

(** A line that reports a package that was not stored. *)
Definition failed (line : Report) : bool :=
  match line with
  | ErrorStoring _ _ | NoSuitableBin _ _ => true
  | _ => false
  end.

Definition report_tracking_id (line : Report) : option string :=
  match line with
  | Stored tid _ _ | ErrorStoring tid _ | NoSuitableBin tid _
  | LoadedOntoTruck tid | UndoRemoved tid => Some tid
  | TruckEmpty => None
  end.

(** The order the registry is described to have: capacity ascending, bin id
    ascending among equal capacities. *)
Definition key_le (a b : StorageBin.t) : Prop :=
  StorageBin.capacity a < StorageBin.capacity b
  \/ (StorageBin.capacity a = StorageBin.capacity b
      /\ StorageBin.bin_id a <= StorageBin.bin_id b).

Definition capacity_le (a b : StorageBin.t) : Prop :=
  StorageBin.capacity a <= StorageBin.capacity b.

Definition has_capacity (k : Z) (b : StorageBin.t) : bool :=
  StorageBin.capacity b =? k.

(** What is recorded as best is a selection from the packages, its total is
    the recorded total, and that total is within the limit. *)
Definition best_is_load (max_cap : Z) (packages : list Package.t)
    (s : Search) : Prop :=
  best_combo s `sublist_of` packages
  /\ total_size (best_combo s) = max_filled s
  /\ max_filled s <= max_cap.

(** The usage invariant of a bin, and the rows that create bins within it. *)
Definition within_capacity (b : StorageBin.t) : Prop :=
  StorageBin.used_space b <= StorageBin.capacity b.

Definition row_in_bounds (r : Row) : Prop :=
  let '(_, capacity, current_usage, _) := r in
  0 <= current_usage <= capacity.

Definition loads_bins_in_bounds (op : Op) : Prop :=
  match op with
  | LoadInventory rows => Forall row_in_bounds rows
  | _ => True
  end.

(** The rows of [seed_database] and the packages of the main program. *)
Definition seed_rows : list Row :=
  [(1, 50, 0, "A1"); (2, 100, 0, "A2"); (3, 150, 0, "B1");
   (4, 200, 0, "B2"); (5, 500, 0, "C1")].

Definition incoming : list Package.t :=
  [Package.mk "PKG_SMALL" 45 "NY"; Package.mk "PKG_HUGE" 120 "CA";
   Package.mk "PKG_MID" 30 "TX"].

Definition cargo_list : list Package.t :=
  [Package.mk "BOX_A" 50 "NY"; Package.mk "BOX_B" 60 "CA";
   Package.mk "BOX_C" 40 "TX"].

(** The include/skip exploration by recursion on the packages not yet
    considered; [solve] at [idx] is shown to compute it on the suffix of
    [packages] from [idx]. *)
Fixpoint explore (rest : list Package.t) (max_cap current_size : Z)
    (s : Search) : Search :=
  let s0 := record_best current_size s in
  match rest with
  | [] => s0
  | pkg :: rest' =>
      if current_size + Package.size pkg <=? max_cap
      then
        let s1 := explore rest' max_cap (current_size + Package.size pkg)
                    (combo_append pkg s0) in
        explore rest' max_cap current_size
          (mkSearch (removelast (current_combo s1)) (best_combo s1)
                    (max_filled s1))
      else explore rest' max_cap current_size s0
  end.

(** ** Vocabulary of the further properties *)

(** The fields of a bin that no method assigns after construction. *)
Definition bin_label (b : StorageBin.t) : Z * Z * string :=
  (StorageBin.bin_id b, StorageBin.capacity b, StorageBin.location_code b).

Definition total_used (bins : list StorageBin.t) : Z :=
  foldr (fun b acc => StorageBin.used_space b + acc) 0 bins.

(** The size that a printed line reports as stored. *)
Definition stored_size (line : Report) : Z :=
  match line with
  | Stored _ size _ => size
  | _ => 0
  end.

Definition total_stored (lines : list Report) : Z :=
  foldr (fun line acc => stored_size line + acc) 0 lines.

(** The order in which a registry serves as a best-fit index: capacity and
    available space both ascending. *)
Definition roomier (a b : StorageBin.t) : Prop :=
  StorageBin.capacity a <= StorageBin.capacity b
  /\ StorageBin.available_space a <= StorageBin.available_space b.

(** What [current_combo] holds at each call of [solve], in the order of the
    calls: the call itself, then the calls under "take" when the package
    fits, then the calls under "skip". *)
Fixpoint visits (rest : list Package.t) (max_cap current_size : Z)
    (combo : list Package.t) : list (list Package.t) :=
  combo ::
  match rest with
  | [] => []
  | pkg :: rest' =>
      (if current_size + Package.size pkg <=? max_cap
       then visits rest' max_cap (current_size + Package.size pkg)
              (combo ++ [pkg])
       else [])
      ++ visits rest' max_cap current_size combo
  end.

(** Lines 135-137 on a visited combination: it replaces the best one only
    when its total is strictly larger. *)
Definition keep_better (best : list Package.t * Z) (combo : list Package.t)
    : list Package.t * Z :=
  if total_size combo >? snd best then (combo, total_size combo) else best.

(** A row of a bin that holds nothing, as [seed_database] inserts them. *)
Definition row_unused (r : Row) : Prop :=
  let '(_, _, current_usage, _) := r in current_usage = 0.

(** [for p in packages: system.load_truck(p)], as in the main program. *)
Definition load_truck_all (self : WarehouseController.t)
    (packages : list Package.t) : WarehouseController.t :=
  fold_left (fun c pkg => fst (load_truck c pkg)) packages self.

(** [n] calls of [undo_last_load] in a row, with what each returned. *)
Fixpoint undo_times (n : nat) (self : WarehouseController.t)
    : outcome (WarehouseController.t * list (option Package.t)) :=
  match n with
  | O => Ok (self, [])
  | S n' =>
      undone <- undo_last_load self ;;
      rest <- undo_times n' (fst (fst undone)) ;;
      Ok (fst rest, snd (fst undone) :: snd rest)
  end.

(** ** The database

    The two tables, as far as the controller writes and reads them.  The
    [bins] table is the list of its rows in the order in which a [SELECT]
    returns them; the store is taken to execute every statement it is
    given.  [datetime.now().isoformat()] is the reading of a clock, [clock]
    applied to the number of readings made so far. *)
Record LogRow : Type := mkLogRow {
  log_tracking_id : string;
  log_bin_id : option Z;
  log_timestamp : string;
  log_status : string
}.

Record Database : Type := mkDatabase {
  bins_table : list Row;
  shipment_logs : list LogRow
}.

Record World : Type := mkWorld {
  database : Database;
  ticks : nat
}.

(** [DROP TABLE IF EXISTS bins], then both [CREATE TABLE IF NOT EXISTS]. *)
Definition connect_db (db : Database) : Database :=
  mkDatabase [] (shipment_logs db).

Definition row_bin_id (r : Row) : Z :=
  let '(r0, _, _, _) := r in r0.

(** [UPDATE bins SET current_usage = ? WHERE bin_id = ?] *)
Definition update_row (bin_obj : StorageBin.t) (r : Row) : Row :=
  let '(r0, r1, r2, r3) := r in
  if r0 =? StorageBin.bin_id bin_obj
  then (r0, r1, StorageBin.used_space bin_obj, r3)
  else r.

Definition update_bin_db (db : Database) (bin_obj : StorageBin.t) : Database :=
  mkDatabase (map (update_row bin_obj) (bins_table db)) (shipment_logs db).

(** [INSERT INTO shipment_logs VALUES (?, ?, ?, ?)] *)
Definition log_action (clock : nat -> string) (w : World)
    (tracking_id : string) (bin_id : option Z) (status : string) : World :=
  mkWorld
    (mkDatabase (bins_table (database w))
       (shipment_logs (database w)
        ++ [mkLogRow tracking_id bin_id (clock (ticks w)) status]))
    (S (ticks w)).

(** The body of the conveyor loop with its two writes to the database. *)
Definition store_package_db (clock : nat -> string)
    (bins : list StorageBin.t) (w : World) (pkg : Package.t)
    : outcome (list StorageBin.t * World * Report) :=
  target_bin <- find_bin_binary_search bins pkg ;;
  match target_bin with
  | Some (pos, curr) =>
      let (curr', occupied) :=
        StorageBin.occupy_space curr (Package.size pkg) in
      let bins' := <[pos := curr']> bins in
      match occupied with
      | Ok _ =>
          let w1 := mkWorld (update_bin_db (database w) curr') (ticks w) in
          let w2 := log_action clock w1 (Package.tracking_id pkg)
                      (Some (StorageBin.bin_id curr')) "STORED" in
          Ok (bins', w2,
              Stored (Package.tracking_id pkg) (Package.size pkg)
                     (StorageBin.bin_id curr'))
      | Raise e => Ok (bins', w, ErrorStoring (Package.tracking_id pkg) e)
      | OutOfFuel => OutOfFuel
      end
  | None =>
      Ok (bins, w,
          NoSuitableBin (Package.tracking_id pkg) (Package.size pkg))
  end.

Fixpoint conveyor_loop_db (clock : nat -> string) (queue : list Package.t)
    (bins : list StorageBin.t) (w : World)
    : outcome (list StorageBin.t * World * list Report) :=
  match queue with
  | [] => Ok (bins, w, [])
  | pkg :: queue' =>
      stored <- store_package_db clock bins w pkg ;;
      rest <- conveyor_loop_db clock queue' (fst (fst stored))
                (snd (fst stored)) ;;
      Ok (fst (fst rest), snd (fst rest), snd stored :: snd rest)
  end.

Definition run_conveyor_db (clock : nat -> string)
    (self : WarehouseController.t) (w : World)
    : outcome (WarehouseController.t * World * list Report) :=
  run <- conveyor_loop_db clock (conveyor self) (bins self) w ;;
  Ok (WarehouseController.mk (fst (fst run)) [] (truck_stack self),
      snd (fst run), snd run).

(** The log row that goes with a printed line, without its timestamp. *)
Definition logged (line : Report) : option (string * option Z * string) :=
  match line with
  | Stored tid _ bin_id => Some (tid, Some bin_id, "STORED")
  | _ => None
  end.


(** What [update_row] does to the bin that a row stands for. *)
Definition update_matching (bin_obj b : StorageBin.t) : StorageBin.t :=
  if StorageBin.bin_id b =? StorageBin.bin_id bin_obj
  then StorageBin.set_used_space b (StorageBin.used_space bin_obj)
  else b.

(** The bins in memory are what [load_inventory] would load now. *)
Definition in_sync (bins : list StorageBin.t) (db : Database) : Prop :=
  list_sort StorageBin.lt (map bin_of_row (bins_table db)) = bins.


(** * Properties *)

(** ** Lists *)

Lemma getitem_in_range {A : Type} (l : list A) (i : Z) :
  0 <= i < Z.of_nat (length l) ->
  exists x, getitem l i = Ok (Z.to_nat i, x) /\ l !! Z.to_nat i = Some x.
Proof.
  intros Hi. unfold getitem.
  destruct (i <? 0) eqn:Hneg; [lia|].
  destruct (i <? 0) eqn:E1; [lia|].
  destruct (Z.of_nat (length l) <=? i) eqn:E2; [lia|]. simpl.
  destruct (l !! Z.to_nat i) as [x|] eqn:Hx.
  - exists x. split; reflexivity.
  - apply lookup_ge_None in Hx. lia.
Qed.

Lemma list_pop_snoc {A : Type} (l : list A) (x : A) :
  list_pop (l ++ [x]) = Ok (x, l).
Proof.
  unfold list_pop. rewrite last_snoc, removelast_last. reflexivity.
Qed.

(** ** [StorageBin] *)

Lemma fits_spec (curr : StorageBin.t) (pkg : Package.t) :
  fits curr pkg = true <->
  StorageBin.capacity curr >= Package.size pkg
  /\ StorageBin.available_space curr >= Package.size pkg.
Proof.
  unfold fits. rewrite andb_true_iff. lia.
Qed.

Lemma occupy_space_raises (self : StorageBin.t) (amount : Z) :
  StorageBin.used_space self + amount > StorageBin.capacity self ->
  StorageBin.occupy_space self amount = (self, Raise (ValueError "Bin Full")).
Proof.
  intros H. unfold StorageBin.occupy_space.
  destruct (_ >? _) eqn:E; [reflexivity | lia].
Qed.

Lemma occupy_space_succeeds (self : StorageBin.t) (amount : Z) :
  StorageBin.used_space self + amount <= StorageBin.capacity self ->
  StorageBin.occupy_space self amount =
  (StorageBin.set_used_space self (StorageBin.used_space self + amount), Ok tt).
Proof.
  intros H. unfold StorageBin.occupy_space.
  destruct (_ >? _) eqn:E; [lia | reflexivity].
Qed.

Lemma occupy_space_keeps_bound (self : StorageBin.t) (amount : Z) :
  StorageBin.used_space self <= StorageBin.capacity self ->
  StorageBin.used_space (fst (StorageBin.occupy_space self amount))
  <= StorageBin.capacity (fst (StorageBin.occupy_space self amount)).
Proof.
  intros H. unfold StorageBin.occupy_space.
  destruct (_ >? _) eqn:E; simpl; lia.
Qed.

(** ** The binary search *)

(** With the bounds inside the list and as much fuel as the width of the
    interval, the loop returns: either the candidate it started with, or a
    bin of the interval that passes the test of line 105. *)
Lemma search_loop_returns (bins : list StorageBin.t) (pkg : Package.t) :
  forall (fuel : nat) (low high : Z) (best_fit : option (nat * StorageBin.t)),
    0 <= low -> high < Z.of_nat (length bins) ->
    high - low + 1 <= Z.of_nat fuel ->
    exists r, search_loop fuel bins pkg low high best_fit = Ok r
      /\ (r = best_fit
          \/ exists pos curr, r = Some (pos, curr)
               /\ bins !! pos = Some curr /\ fits curr pkg = true
               /\ low <= Z.of_nat pos <= high).
Proof.
  induction fuel as [|fuel IH]; intros low high best_fit Hlow Hhigh Hfuel.
  - simpl. destruct (low <=? high) eqn:E; [lia|]. eauto.
  - cbn [search_loop]. destruct (low <=? high) eqn:E; [|eauto].
    apply Z.leb_le in E.
    assert (Hmid : low <= (low + high) / 2 <= high).
    { split; [apply Z.div_le_lower_bound | apply Z.div_le_upper_bound]; lia. }
    destruct (getitem_in_range bins ((low + high) / 2)) as (curr & -> & Hcurr);
      [lia|].
    cbn [bind snd].
    destruct (fits curr pkg) eqn:Hfits.
    + destruct (IH low ((low + high) / 2 - 1)
                  (Some (Z.to_nat ((low + high) / 2), curr)))
        as (r & Hr & Hcase); [lia..|].
      exists r. split; [exact Hr|]. right.
      destruct Hcase as [-> | (pos & c & -> & ? & ? & ?)].
      * exists (Z.to_nat ((low + high) / 2)), curr.
        repeat split; try assumption; lia.
      * exists pos, c. repeat split; try assumption; lia.
    + destruct (IH ((low + high) / 2 + 1) high best_fit)
        as (r & Hr & Hcase); [lia..|].
      exists r. split; [exact Hr|].
      destruct Hcase as [-> | (pos & c & -> & ? & ? & ?)]; [by left|].
      right. exists pos, c. repeat split; try assumption; lia.
Qed.

Lemma find_bin_binary_search_returns
    (bins : list StorageBin.t) (pkg : Package.t) :
  exists r, find_bin_binary_search bins pkg = Ok r
    /\ (r = None
        \/ exists pos curr, r = Some (pos, curr)
             /\ bins !! pos = Some curr /\ fits curr pkg = true).
Proof.
  unfold find_bin_binary_search.
  destruct (search_loop_returns bins pkg (length bins) 0
              (Z.of_nat (length bins) - 1) None) as (r & Hr & Hcase); [lia..|].
  exists r. split; [exact Hr|].
  destruct Hcase as [-> | (pos & c & -> & ? & ? & ?)]; [by left|].
  right. eauto.
Qed.

(** C5. [occupy_space] raises its capacity error ([ValueError "Bin Full"])
    exactly when [used_space + amount > capacity], and raises nothing else;
    when it succeeds the used space has grown by exactly [amount] and the
    other fields are as before; when it raises the bin is as before. *)
Theorem occupy_space_capacity_check (self : StorageBin.t) (amount : Z) :
  let after := fst (StorageBin.occupy_space self amount) in
  let result := snd (StorageBin.occupy_space self amount) in
  (result = Raise (ValueError "Bin Full")
   <-> StorageBin.used_space self + amount > StorageBin.capacity self)
  /\ (result = Ok tt \/ result = Raise (ValueError "Bin Full"))
  /\ (result = Ok tt ->
      StorageBin.used_space after = StorageBin.used_space self + amount
      /\ StorageBin.bin_id after = StorageBin.bin_id self
      /\ StorageBin.capacity after = StorageBin.capacity self
      /\ StorageBin.location_code after = StorageBin.location_code self)
  /\ (result <> Ok tt -> after = self).
Proof.
  unfold StorageBin.occupy_space.
  destruct (_ >? _) eqn:E; cbn -[Z.add].
  - repeat split; try (intros; discriminate); try (intros; lia); auto.
  - repeat split; try (intros; discriminate); try (intros; lia); auto.
    intros H. congruence.
Qed.

Lemma occupy_space_capacity_check_witness :
  let self := StorageBin.mk 1 50 "A1" 45 in
  snd (StorageBin.occupy_space self 5) = Ok tt
  /\ StorageBin.used_space (fst (StorageBin.occupy_space self 5)) = 50
  /\ snd (StorageBin.occupy_space self 6) <> Ok tt
  /\ fst (StorageBin.occupy_space self 6) = self.
Proof.
  intros self.
  pose proof (occupy_space_capacity_check self 5) as (_ & _ & Hok & _).
  pose proof (occupy_space_capacity_check self 6) as (_ & _ & _ & Hfail).
  assert (H5 : snd (StorageBin.occupy_space self 5) = Ok tt) by reflexivity.
  assert (H6 : snd (StorageBin.occupy_space self 6) <> Ok tt) by discriminate.
  split; [exact H5|]. split; [exact (proj1 (Hok H5))|].
  split; [exact H6 | exact (Hfail H6)].
Defined.

(** C3. The search always returns, and a bin it returns has
    [capacity >= size] and [available_space >= size] for the package asked
    for; it is the bin stored at the position returned.  With two bins of
    capacity 100, one used 90 and one used 0, in either order, a package of
    size 50 gets the bin with used space 0. *)
Theorem find_bin_binary_search_sound
    (bins : list StorageBin.t) (pkg : Package.t) :
  (exists r, find_bin_binary_search bins pkg = Ok r)
  /\ (forall pos curr,
        find_bin_binary_search bins pkg = Ok (Some (pos, curr)) ->
        bins !! pos = Some curr
        /\ StorageBin.capacity curr >= Package.size pkg
        /\ StorageBin.available_space curr >= Package.size pkg)
  /\ (forall tid dest,
        let used90 := StorageBin.mk 1 100 "A1" 90 in
        let used0 := StorageBin.mk 2 100 "A2" 0 in
        find_bin_binary_search [used90; used0] (Package.mk tid 50 dest)
        = Ok (Some (1%nat, used0))
        /\ find_bin_binary_search [used0; used90] (Package.mk tid 50 dest)
           = Ok (Some (0%nat, used0))).
Proof.
  destruct (find_bin_binary_search_returns bins pkg) as (r & Hr & Hcase).
  split; [eauto|]. split.
  - intros pos curr Hfound. rewrite Hr in Hfound.
    destruct Hcase as [-> | (pos' & c & -> & Hget & Hfits)]; [discriminate|].
    injection Hfound as -> ->. split; [exact Hget|].
    by apply fits_spec.
  - intros tid dest. split; reflexivity.
Qed.

Lemma find_bin_binary_search_sound_witness :
  let bins := WarehouseController.bins (load_inventory init seed_rows) in
  let pkg := Package.mk "PKG_HUGE" 120 "CA" in
  let curr := StorageBin.mk 3 150 "B1" 0 in
  find_bin_binary_search bins pkg = Ok (Some (2%nat, curr))
  /\ bins !! 2%nat = Some curr
  /\ StorageBin.capacity curr >= Package.size pkg
  /\ StorageBin.available_space curr >= Package.size pkg.
Proof.
  intros bins pkg curr.
  assert (Hfound : find_bin_binary_search bins pkg = Ok (Some (2%nat, curr)))
    by reflexivity.
  split; [exact Hfound|].
  exact (proj1 (proj2 (find_bin_binary_search_sound bins pkg)) _ _ Hfound).
Defined.

(** C1, on a registry the program reaches.  After the seeded bins have
    taken packages of sizes 150, 200 and 500, the bins of capacity 150, 200
    and 500 are full and those of capacity 50 and 100 are empty; the search
    for a package of size 10 probes positions 2, 3 and 4 and returns no bin,
    although the bin of capacity 50 at position 0 fits. *)
Theorem find_bin_binary_search_misses_fitting_bin :
  let ops :=
    [LoadInventory seed_rows;
     AddToConveyor (Package.mk "PKG_1" 150 "NY");
     AddToConveyor (Package.mk "PKG_2" 200 "CA");
     AddToConveyor (Package.mk "PKG_3" 500 "TX");
     RunConveyor] in
  let registry :=
    [StorageBin.mk 1 50 "A1" 0; StorageBin.mk 2 100 "A2" 0;
     StorageBin.mk 3 150 "B1" 150; StorageBin.mk 4 200 "B2" 200;
     StorageBin.mk 5 500 "C1" 500] in
  let pkg := Package.mk "PKG_4" 10 "NY" in
  apply_ops ops init = Ok (WarehouseController.mk registry [] [])
  /\ find_bin_binary_search registry pkg = Ok None
  /\ registry !! 0%nat = Some (StorageBin.mk 1 50 "A1" 0)
  /\ fits (StorageBin.mk 1 50 "A1" 0) pkg = true
  /\ store_package registry pkg = Ok (registry, NoSuitableBin "PKG_4" 10).
Proof.
  cbv zeta. repeat split; reflexivity.
Qed.

(** C9. Scenario A: from the seeded bins (capacities 50, 100, 150, 200, 500,
    nothing used) the conveyor stores the package of size 45 in the bin of
    capacity 50 (bin 1, which is left with 5 available), the package of
    size 120 in the bin of capacity 150 (bin 3) and the package of size 30
    in the bin of capacity 100 (bin 2). *)
Theorem scenario_A_allocation :
  let bins0 := WarehouseController.bins (load_inventory init seed_rows) in
  let bins1 :=
    [StorageBin.mk 1 50 "A1" 45; StorageBin.mk 2 100 "A2" 0;
     StorageBin.mk 3 150 "B1" 0; StorageBin.mk 4 200 "B2" 0;
     StorageBin.mk 5 500 "C1" 0] in
  let bins2 :=
    [StorageBin.mk 1 50 "A1" 45; StorageBin.mk 2 100 "A2" 0;
     StorageBin.mk 3 150 "B1" 120; StorageBin.mk 4 200 "B2" 0;
     StorageBin.mk 5 500 "C1" 0] in
  let bins3 :=
    [StorageBin.mk 1 50 "A1" 45; StorageBin.mk 2 100 "A2" 30;
     StorageBin.mk 3 150 "B1" 120; StorageBin.mk 4 200 "B2" 0;
     StorageBin.mk 5 500 "C1" 0] in
  map StorageBin.capacity bins0 = [50; 100; 150; 200; 500]
  /\ map StorageBin.used_space bins0 = [0; 0; 0; 0; 0]
  /\ store_package bins0 (Package.mk "PKG_SMALL" 45 "NY")
     = Ok (bins1, Stored "PKG_SMALL" 45 1)
  /\ store_package bins1 (Package.mk "PKG_HUGE" 120 "CA")
     = Ok (bins2, Stored "PKG_HUGE" 120 3)
  /\ store_package bins2 (Package.mk "PKG_MID" 30 "TX")
     = Ok (bins3, Stored "PKG_MID" 30 2)
  /\ map StorageBin.available_space bins3 = [5; 70; 30; 200; 500]
  /\ apply_ops (LoadInventory seed_rows :: map AddToConveyor incoming
                ++ [RunConveyor]) init
     = Ok (WarehouseController.mk bins3 [] []).
Proof.
  cbv zeta. repeat split; reflexivity.
Qed.

(** ** [load_inventory] and the order of the registry *)

Section SortByCapacity.
Local Abbreviation insert_bin := (sort_insert StorageBin.lt).
Local Abbreviation sort_bins := (list_sort StorageBin.lt).

Lemma filter_cons_eq (f : StorageBin.t -> bool) (a : StorageBin.t)
    (l : list StorageBin.t) :
  List.filter f (a :: l)
  = if f a then a :: List.filter f l else List.filter f l.
Proof. reflexivity. Qed.

Lemma sort_insert_perm (x : StorageBin.t) (l : list StorageBin.t) :
  Permutation (insert_bin x l) (x :: l).
Proof.
  induction l as [|e r IH]; simpl; [reflexivity|].
  destruct (StorageBin.lt e x); [|reflexivity].
  rewrite IH. apply perm_swap.
Qed.

Lemma list_sort_perm (l : list StorageBin.t) : Permutation (sort_bins l) l.
Proof.
  induction l as [|x r IH]; simpl; [reflexivity|].
  rewrite sort_insert_perm. by constructor.
Qed.

Lemma sort_insert_HdRel (R : StorageBin.t -> StorageBin.t -> Prop)
    (e x : StorageBin.t) (r : list StorageBin.t) :
  R e x -> HdRel R e r -> HdRel R e (insert_bin x r).
Proof.
  intros Hex Hr. destruct r as [|e' r']; simpl; [by constructor|].
  destruct (StorageBin.lt e' x); constructor; [|exact Hex].
  by inversion Hr.
Qed.

Lemma sort_insert_sorted (x : StorageBin.t) (l : list StorageBin.t) :
  Sorted capacity_le l -> Sorted capacity_le (insert_bin x l).
Proof.
  induction 1 as [|e r Hsorted IH Hhd]; simpl; [by repeat constructor|].
  destruct (StorageBin.lt e x) eqn:E; unfold StorageBin.lt in E.
  - constructor; [exact IH|].
    apply sort_insert_HdRel; [unfold capacity_le; lia | exact Hhd].
  - repeat constructor; try assumption. unfold capacity_le. lia.
Qed.

Lemma list_sort_sorted (l : list StorageBin.t) :
  Sorted capacity_le (sort_bins l).
Proof.
  induction l as [|x r IH]; simpl; [constructor|].
  by apply sort_insert_sorted.
Qed.

(** Stability: the bins of one capacity come out in the order they went in. *)
Lemma sort_insert_stable (k : Z) (x : StorageBin.t) (l : list StorageBin.t) :
  List.filter (has_capacity k) (insert_bin x l)
  = List.filter (has_capacity k) (x :: l).
Proof.
  induction l as [|e r IH]; [reflexivity|].
  cbn [sort_insert]. destruct (StorageBin.lt e x) eqn:E; [|reflexivity].
  unfold StorageBin.lt in E.
  rewrite !filter_cons_eq, IH, filter_cons_eq. unfold has_capacity.
  destruct (StorageBin.capacity e =? k) eqn:Ee;
    destruct (StorageBin.capacity x =? k) eqn:Ex; try reflexivity.
  lia.
Qed.

Lemma list_sort_stable (k : Z) (l : list StorageBin.t) :
  List.filter (has_capacity k) (sort_bins l) = List.filter (has_capacity k) l.
Proof.
  induction l as [|x r IH]; [reflexivity|].
  cbn [list_sort]. rewrite sort_insert_stable, !filter_cons_eq.
  by rewrite IH.
Qed.

(** Two lists in ascending capacity that hold the same bins in the same
    order at every capacity are the same list: the result of [l.sort()] is
    fixed by its being stable and ordered by [__lt__], however it is
    computed. *)
Lemma capacity_sorted_unique (l1 : list StorageBin.t) :
  forall l2,
    Sorted capacity_le l1 -> Sorted capacity_le l2 ->
    (forall k, List.filter (has_capacity k) l1
               = List.filter (has_capacity k) l2) ->
    l1 = l2.
Proof.
  assert (Htrans : Relations_1.Transitive capacity_le)
    by (intros a b c; unfold capacity_le; lia).
  assert (Hself : forall b, has_capacity (StorageBin.capacity b) b = true)
    by (intros b; apply Z.eqb_refl).
  induction l1 as [|x r1 IH]; intros [|y r2] S1 S2 Hsame; try reflexivity.
  - specialize (Hsame (StorageBin.capacity y)).
    rewrite filter_cons_eq, Hself in Hsame. discriminate.
  - specialize (Hsame (StorageBin.capacity x)).
    rewrite filter_cons_eq, Hself in Hsame. discriminate.
  - pose proof (Sorted_extends Htrans S1) as Hx.
    pose proof (Sorted_extends Htrans S2) as Hy.
    rewrite List.Forall_forall in Hx, Hy.
    assert (Hyx : StorageBin.capacity y <= StorageBin.capacity x).
    { assert (Hin : List.In x (List.filter
                        (has_capacity (StorageBin.capacity x)) (y :: r2))).
      { rewrite <- Hsame, filter_cons_eq, Hself. by left. }
      apply List.filter_In in Hin as [[->|Hin] _]; [lia|].
      by apply Hy. }
    assert (Hxy : StorageBin.capacity x <= StorageBin.capacity y).
    { assert (Hin : List.In y (List.filter
                        (has_capacity (StorageBin.capacity y)) (x :: r1))).
      { rewrite Hsame, filter_cons_eq, Hself. by left. }
      apply List.filter_In in Hin as [[->|Hin] _]; [lia|].
      by apply Hx. }
    pose proof (Hsame (StorageBin.capacity x)) as Hhead.
    rewrite !filter_cons_eq, Hself in Hhead.
    replace (has_capacity (StorageBin.capacity x) y) with true in Hhead
      by (symmetry; apply Z.eqb_eq; lia).
    injection Hhead as <- Htail. f_equal.
    apply IH;
      [exact (proj1 (Sorted_inv S1)) | exact (proj1 (Sorted_inv S2)) |].
    intros k. specialize (Hsame k). rewrite !filter_cons_eq in Hsame.
    destruct (has_capacity k x); congruence.
Qed.

Lemma stable_sort_unique (l sorted : list StorageBin.t) :
  Sorted capacity_le sorted ->
  (forall k, List.filter (has_capacity k) sorted
             = List.filter (has_capacity k) l) ->
  sorted = sort_bins l.
Proof.
  intros Hsorted Hstable.
  apply capacity_sorted_unique; [exact Hsorted | apply list_sort_sorted |].
  intros k. by rewrite Hstable, list_sort_stable.
Qed.

(** When each bin comes in before the bins whose id is not smaller, equal
    capacities end up ordered by id. *)
Lemma sort_insert_key_sorted (x : StorageBin.t) (l : list StorageBin.t) :
  Forall (fun e => StorageBin.bin_id x <= StorageBin.bin_id e) l ->
  Sorted key_le l -> Sorted key_le (insert_bin x l).
Proof.
  intros Hids Hsorted. revert Hids.
  induction Hsorted as [|e r Hsorted IH Hhd]; intros Hids; simpl;
    [by repeat constructor|].
  apply Forall_cons in Hids as [Hxe Hids]. cbv beta in Hxe.
  destruct (StorageBin.lt e x) eqn:E; unfold StorageBin.lt in E.
  - constructor; [by apply IH|].
    apply sort_insert_HdRel; [left; lia | exact Hhd].
  - constructor; [by constructor|]. constructor. unfold key_le. lia.
Qed.

Lemma list_sort_key_sorted (l : list StorageBin.t) :
  StronglySorted (fun a b => StorageBin.bin_id a <= StorageBin.bin_id b) l ->
  Sorted key_le (sort_bins l).
Proof.
  induction 1 as [|x r Hr IH Hx]; simpl; [constructor|].
  apply sort_insert_key_sorted; [|exact IH].
  eapply Permutation_Forall; [symmetry; apply list_sort_perm | exact Hx].
Qed.
End SortByCapacity.

(** What the sort does on any list of rows: [load_inventory] replaces the
    bins by the fetched rows, whatever the bins were, and leaves the other
    fields alone; the new bins are a rearrangement of the rows, in ascending
    capacity, and the bins of any one capacity are in the order in which
    their rows were fetched. *)
Lemma load_inventory_sorts_by_capacity
    (self : WarehouseController.t) (rows : list Row) :
  let loaded := load_inventory self rows in
  Permutation (bins loaded) (map bin_of_row rows)
  /\ Sorted capacity_le (bins loaded)
  /\ (forall k, List.filter (has_capacity k) (bins loaded)
                = List.filter (has_capacity k) (map bin_of_row rows))
  /\ (forall other, bins (load_inventory other rows) = bins loaded)
  /\ conveyor loaded = conveyor self
  /\ truck_stack loaded = truck_stack self.
Proof.
  cbn. split; [apply list_sort_perm|]. split; [apply list_sort_sorted|].
  split; [intros k; apply list_sort_stable|]. auto.
Qed.

(** Rows fetched in ascending bin id give the (capacity, bin id) order. *)
Lemma load_inventory_key_sorted
    (self : WarehouseController.t) (rows : list Row) :
  StronglySorted (fun a b => StorageBin.bin_id a <= StorageBin.bin_id b)
    (map bin_of_row rows) ->
  Sorted key_le (bins (load_inventory self rows)).
Proof. apply list_sort_key_sorted. Qed.

Lemma rows_by_id_bins_by_id (rows : list Row) :
  StronglySorted (fun a b => row_bin_id a <= row_bin_id b) rows ->
  StronglySorted (fun a b => StorageBin.bin_id a <= StorageBin.bin_id b)
    (map bin_of_row rows).
Proof.
  assert (Hid : forall r, StorageBin.bin_id (bin_of_row r) = row_bin_id r)
    by (by intros [[[r0 r1] r2] r3]).
  induction 1 as [|r rows Hrows IH Hr]; cbn [map]; constructor;
    [exact IH|].
  apply Forall_map. eapply Forall_impl; [exact Hr|].
  intros r' Hle. cbv beta. by rewrite !Hid.
Qed.

(** C2. The rows of the [bins] table, whose key is [bin_id INTEGER PRIMARY
    KEY], are fetched in ascending bin id.  On rows fetched in that order,
    whatever the set of bins, [load_inventory] replaces the bins in memory,
    whatever they were, by the bins of the rows in ascending capacity, with
    bins of equal capacity in ascending bin id; the other fields are left
    alone. *)
Theorem load_inventory_sorts_by_capacity_then_id
    (self : WarehouseController.t) (rows : list Row)
    (Hfetch : StronglySorted (fun a b => row_bin_id a <= row_bin_id b) rows) :
  let loaded := load_inventory self rows in
  Sorted key_le (bins loaded)
  /\ Permutation (bins loaded) (map bin_of_row rows)
  /\ (forall other, bins (load_inventory other rows) = bins loaded)
  /\ conveyor loaded = conveyor self
  /\ truck_stack loaded = truck_stack self.
Proof.
  cbn zeta. split.
  - apply list_sort_key_sorted. by apply rows_by_id_bins_by_id.
  - split; [apply list_sort_perm|]. by repeat split.
Qed.

Lemma load_inventory_sorts_by_capacity_then_id_witness :
  let rows := [(1, 100, 0, "A1"); (2, 50, 10, "A2"); (3, 100, 90, "B1");
               (4, 50, 0, "B2")] in
  let loaded := load_inventory init rows in
  bins loaded
  = [StorageBin.mk 2 50 "A2" 10; StorageBin.mk 4 50 "B2" 0;
     StorageBin.mk 1 100 "A1" 0; StorageBin.mk 3 100 "B1" 90]
  /\ Sorted key_le (bins loaded)
  /\ Permutation (bins loaded) (map bin_of_row rows).
Proof.
  intros rows loaded. split; [reflexivity|].
  assert (Hfetch : StronglySorted
                     (fun a b => row_bin_id a <= row_bin_id b) rows).
  { repeat (apply SSorted_cons || apply SSorted_nil
            || apply List.Forall_cons || apply List.Forall_nil); cbn; lia. }
  pose proof (load_inventory_sorts_by_capacity_then_id init rows Hfetch)
    as (Hsorted & Hperm & _).
  by split.
Defined.

(** ** The truck stack *)

(** C7. An undo right after a load returns the package loaded and leaves
    the controller as it was before the load; an undo on an empty stack
    returns no package, raises nothing and leaves the stack empty; after
    loading A, B, C, two undos return C, then B, and leave A below what the
    stack held before (the stack is [A] when it started empty). *)
Theorem truck_stack_lifo :
  (forall self x,
      undo_last_load (fst (load_truck self x))
      = Ok (self, Some x, [UndoRemoved (Package.tracking_id x)]))
  /\ (forall bins conveyor,
        undo_last_load (WarehouseController.mk bins conveyor [])
        = Ok (WarehouseController.mk bins conveyor [], None, [TruckEmpty]))
  /\ (forall self A B C,
        let loaded :=
          fst (load_truck (fst (load_truck (fst (load_truck self A)) B)) C) in
        exists once twice out1 out2,
          undo_last_load loaded = Ok (once, Some C, out1)
          /\ undo_last_load once = Ok (twice, Some B, out2)
          /\ truck_stack twice = truck_stack self ++ [A]
          /\ (truck_stack self = [] -> truck_stack twice = [A])).
Proof.
  assert (Hundo : forall bins conveyor stack x,
    undo_last_load (WarehouseController.mk bins conveyor (stack ++ [x]))
    = Ok (WarehouseController.mk bins conveyor stack, Some x,
          [UndoRemoved (Package.tracking_id x)])).
  { intros bins conveyor stack x. unfold undo_last_load.
    cbn [truck_stack WarehouseController.bins WarehouseController.conveyor].
    rewrite list_pop_snoc.
    destruct (stack ++ [x]) eqn:E; [by destruct stack|reflexivity]. }
  split; [|split].
  - intros [bins conveyor stack] x. apply Hundo.
  - reflexivity.
  - intros [bins conveyor stack] A B C. cbn.
    eexists _, _, _, _. rewrite !Hundo. repeat split.
    cbn. by intros ->.
Qed.

(** ** The conveyor *)

(** One package: the body of the loop returns, prints one line about that
    package, keeps the number of bins, and when the line reports a failure
    the bins are what they were. *)
Lemma store_package_returns (bins : list StorageBin.t) (pkg : Package.t) :
  exists bins' line,
    store_package bins pkg = Ok (bins', line)
    /\ report_tracking_id line = Some (Package.tracking_id pkg)
    /\ (failed line = true -> bins' = bins)
    /\ (Forall within_capacity bins -> Forall within_capacity bins').
Proof.
  unfold store_package.
  destruct (find_bin_binary_search_returns bins pkg) as (r & -> & Hcase).
  cbn [bind].
  destruct Hcase as [-> | (pos & curr & -> & Hget & Hfits)].
  - eexists _, _. split; [reflexivity|]. auto.
  - pose proof (occupy_space_keeps_bound curr (Package.size pkg)) as Hbound.
    unfold StorageBin.occupy_space in *.
    destruct (_ >? _) eqn:E; cbn [fst] in Hbound.
    + eexists _, _. split; [reflexivity|]. cbn.
      rewrite (list_insert_id _ _ _ Hget). auto.
    + eexists _, _. split; [reflexivity|]. cbn.
      split; [reflexivity|]. split; [discriminate|].
      intros Hall. apply Forall_insert; [exact Hall|].
      apply Hbound. exact (Forall_lookup_1 _ _ _ _ Hall Hget).
Qed.

Lemma conveyor_loop_app (before after : list Package.t) :
  forall bins,
    conveyor_loop (before ++ after) bins
    = (first <- conveyor_loop before bins ;;
       second <- conveyor_loop after (fst first) ;;
       Ok (fst second, snd first ++ snd second)).
Proof.
  induction before as [|pkg before IH]; intros bins.
  - cbn. destruct (conveyor_loop after bins) as [[? ?]| |]; reflexivity.
  - cbn [app conveyor_loop].
    destruct (store_package bins pkg) as [[bins1 line]| |]; cbn [bind fst snd];
      try reflexivity.
    rewrite IH.
    destruct (conveyor_loop before bins1) as [[bins2 lines]| |];
      cbn [bind fst snd]; try reflexivity.
    destruct (conveyor_loop after bins2) as [[? ?]| |]; reflexivity.
Qed.

Lemma conveyor_loop_returns (queue : list Package.t) :
  forall bins, exists bins' lines,
    conveyor_loop queue bins = Ok (bins', lines)
    /\ map report_tracking_id lines
       = map (fun pkg => Some (Package.tracking_id pkg)) queue
    /\ (Forall within_capacity bins -> Forall within_capacity bins').
Proof.
  induction queue as [|pkg queue IH]; intros bins.
  - exists bins, []. by repeat split.
  - destruct (store_package_returns bins pkg)
      as (bins1 & line & Hstore & Htid & _ & Hinv1).
    destruct (IH bins1) as (bins2 & lines & Hloop & Htids & Hinv2).
    exists bins2, (line :: lines). cbn [conveyor_loop].
    rewrite Hstore. cbn [bind fst snd]. rewrite Hloop. cbn [bind fst snd].
    split; [reflexivity|]. split; [|auto].
    cbn [map]. by rewrite Htid, Htids.
Qed.

(** C8. Packages join the queue at its back.  [run_conveyor] returns, with
    the queue emptied and the truck untouched, after printing one line per
    package in arrival order.  Each
    package is handled on the bins left by the packages that arrived before
    it, and the packages that arrived after it are handled on the bins it
    leaves; when its line reports a failure (no bin, or an error from
    [occupy_space]) it leaves the bins as it found them. *)
Theorem run_conveyor_failures_are_local (self : WarehouseController.t) :
  exists bins' lines,
    run_conveyor self
    = Ok (WarehouseController.mk bins' [] (truck_stack self), lines)
    /\ (forall pkg,
          conveyor (add_to_conveyor self pkg) = conveyor self ++ [pkg])
    /\ map report_tracking_id lines
       = map (fun pkg => Some (Package.tracking_id pkg)) (conveyor self)
    /\ forall before pkg after,
         conveyor self = before ++ pkg :: after ->
         exists bins1 lines1 bins2 line lines2,
           conveyor_loop before (bins self) = Ok (bins1, lines1)
           /\ store_package bins1 pkg = Ok (bins2, line)
           /\ conveyor_loop after bins2 = Ok (bins', lines2)
           /\ lines = lines1 ++ line :: lines2
           /\ report_tracking_id line = Some (Package.tracking_id pkg)
           /\ (failed line = true -> bins2 = bins1).
Proof.
  destruct (conveyor_loop_returns (conveyor self) (bins self))
    as (bins' & lines & Hloop & Htids & _).
  exists bins', lines. unfold run_conveyor. rewrite Hloop. cbn [bind fst snd].
  split; [reflexivity|]. split; [reflexivity|]. split; [exact Htids|].
  intros before pkg after Hqueue.
  rewrite Hqueue, conveyor_loop_app in Hloop.
  destruct (conveyor_loop_returns before (bins self))
    as (bins1 & lines1 & Hbefore & _).
  rewrite Hbefore in Hloop. cbn [bind fst snd conveyor_loop] in Hloop.
  destruct (store_package_returns bins1 pkg)
    as (bins2 & line & Hstore & Htid & Hfail & _).
  rewrite Hstore in Hloop. cbn [bind fst snd] in Hloop.
  destruct (conveyor_loop_returns after bins2) as (bins3 & lines2 & Hafter & _).
  rewrite Hafter in Hloop. cbn [bind fst snd] in Hloop.
  injection Hloop as <- <-.
  exists bins1, lines1, bins2, line, lines2. by repeat split.
Qed.

Lemma run_conveyor_failures_are_local_witness :
  let self :=
    WarehouseController.mk
      (bins (load_inventory init seed_rows))
      [Package.mk "PKG_SMALL" 45 "NY"; Package.mk "PKG_GIANT" 900 "CA";
       Package.mk "PKG_MID" 30 "TX"] [] in
  exists bins' lines bins1 lines1 bins2 line lines2,
    run_conveyor self = Ok (WarehouseController.mk bins' [] [], lines)
    /\ conveyor_loop [Package.mk "PKG_SMALL" 45 "NY"] (bins self)
       = Ok (bins1, lines1)
    /\ store_package bins1 (Package.mk "PKG_GIANT" 900 "CA") = Ok (bins2, line)
    /\ conveyor_loop [Package.mk "PKG_MID" 30 "TX"] bins2 = Ok (bins', lines2)
    /\ lines = lines1 ++ line :: lines2
    /\ line = NoSuitableBin "PKG_GIANT" 900
    /\ bins2 = bins1.
Proof.
  intros self.
  destruct (run_conveyor_failures_are_local self)
    as (bins' & lines & Hrun & _ & _ & Hsplit).
  destruct (Hsplit [Package.mk "PKG_SMALL" 45 "NY"]
              (Package.mk "PKG_GIANT" 900 "CA")
              [Package.mk "PKG_MID" 30 "TX"] eq_refl)
    as (bins1 & lines1 & bins2 & line & lines2
        & Hbefore & Hstore & Hafter & Hlines & _ & Hfail).
  exists bins', lines, bins1, lines1, bins2, line, lines2.
  assert (Hb1 : bins1 = [StorageBin.mk 1 50 "A1" 45; StorageBin.mk 2 100 "A2" 0;
                         StorageBin.mk 3 150 "B1" 0; StorageBin.mk 4 200 "B2" 0;
                         StorageBin.mk 5 500 "C1" 0])
    by (vm_compute in Hbefore; congruence).
  assert (Hline : line = NoSuitableBin "PKG_GIANT" 900)
    by (rewrite Hb1 in Hstore; vm_compute in Hstore; congruence).
  repeat split; try assumption.
  apply Hfail. by rewrite Hline.
Defined.

(** ** The truck load optimizer *)

Lemma record_best_combo (current_size : Z) (s : Search) :
  current_combo (record_best current_size s) = current_combo s.
Proof. unfold record_best. by destruct (_ >? _). Qed.

Lemma record_best_filled (current_size : Z) (s : Search) :
  max_filled (record_best current_size s) = Z.max current_size (max_filled s).
Proof. unfold record_best. destruct (_ >? _) eqn:E; cbn; lia. Qed.

(** A call leaves the shared list as it found it: each append is undone by
    the pop that follows the recursive call. *)
Lemma explore_combo (rest : list Package.t) (max_cap : Z) :
  forall current_size s,
    current_combo (explore rest max_cap current_size s) = current_combo s.
Proof.
  induction rest as [|pkg rest IH]; intros current_size s; cbn [explore].
  - apply record_best_combo.
  - destruct (_ <=? _).
    + rewrite IH. cbn [current_combo]. rewrite IH.
      cbn [combo_append current_combo].
      by rewrite removelast_last, record_best_combo.
    + by rewrite IH, record_best_combo.
Qed.

Lemma combo_pop_explore (rest : list Package.t) (max_cap size : Z)
    (pkg : Package.t) (s : Search) :
  let s1 := explore rest max_cap size (combo_append pkg s) in
  combo_pop s1
  = Ok (mkSearch (removelast (current_combo s1)) (best_combo s1)
                 (max_filled s1)).
Proof.
  intros s1. unfold combo_pop, list_pop.
  assert (Hcombo : current_combo s1 = current_combo s ++ [pkg])
    by apply explore_combo.
  rewrite Hcombo, last_snoc. reflexivity.
Qed.

(** [solve] at [idx] explores the packages from [idx] on, and raises
    nothing. *)
Lemma solve_explore (packages : list Package.t) (max_cap : Z)
    (idx : nat) (current_size : Z) (s : Search) :
  (idx <= length packages)%nat ->
  solve packages max_cap idx current_size s
  = Ok (explore (drop idx packages) max_cap current_size s).
Proof.
  funelim (solve packages max_cap idx current_size s); intros Hle;
    try match goal with
    | Hpkg : _ !! _ = Some _ |- _ =>
        pose proof (lookup_lt_Some _ _ _ Hpkg) as Hlt;
        rewrite (drop_S _ _ _ Hpkg); cbn [explore]
    end;
    repeat match goal with
    | IH : (S _ <= _)%nat -> solve _ _ _ _ _ = Ok _ |- _ =>
        specialize (IH Hlt)
    end;
    try match goal with
    | Hcall : solve _ _ (S ?i) ?sz (combo_append ?p ?s0) = _,
      IH : solve _ _ (S ?i) ?sz (combo_append ?p ?s0) = Ok _ |- _ =>
        rewrite IH in Hcall; try discriminate;
        injection Hcall as <-
    end;
    try match goal with
    | Hpop : combo_pop (explore _ _ _ (combo_append _ _)) = _ |- _ =>
        rewrite combo_pop_explore in Hpop; try discriminate;
        injection Hpop as <-
    end;
    try match goal with
    | Htest : (_ <=? _) = _ |- _ => rewrite Htest
    end.
  - pose proof (proj1 (Nat.eqb_eq _ _) e) as Hend.
    by rewrite drop_ge by lia.
  - pose proof (proj1 (lookup_ge_None _ _) e) as Hout.
    pose proof (proj1 (Nat.eqb_neq _ _) Hidx) as Hne. lia.
  - assumption.
  - assumption.
Qed.

(** The depth of the recursion is bounded by the number of packages from
    [idx] on: that much fuel, and one unit for the call at
    [idx = len(packages)], is enough. *)
Lemma solve_fuel_explore (packages : list Package.t) (max_cap : Z) :
  forall (fuel idx : nat) (current_size : Z) (s : Search),
    (idx <= length packages)%nat ->
    (length packages - idx < fuel)%nat ->
    solve_fuel fuel packages max_cap idx current_size s
    = Ok (explore (drop idx packages) max_cap current_size s).
Proof.
  induction fuel as [|fuel IH]; intros idx current_size s Hle Hfuel; [lia|].
  cbn [solve_fuel]. destruct (Nat.eqb_spec idx (length packages)) as [->|Hne].
  - by rewrite drop_ge by lia.
  - destruct (packages !! idx) as [pkg|] eqn:Hpkg;
      [|apply lookup_ge_None in Hpkg; lia].
    rewrite (drop_S _ _ _ Hpkg). cbn [explore].
    destruct (_ <=? _).
    + rewrite IH by lia. cbn [bind].
      rewrite combo_pop_explore. cbn [bind]. apply IH; lia.
    + apply IH; lia.
Qed.

Lemma total_size_cons (pkg : Package.t) (l : list Package.t) :
  total_size (pkg :: l) = Package.size pkg + total_size l.
Proof. reflexivity. Qed.

Lemma total_size_app (l1 l2 : list Package.t) :
  total_size (l1 ++ l2) = total_size l1 + total_size l2.
Proof.
  induction l1 as [|x l1 IH]; [reflexivity|].
  cbn [app]. rewrite !total_size_cons. lia.
Qed.

Lemma total_size_nonneg (l : list Package.t) :
  Forall (fun pkg => 0 <= Package.size pkg) l -> 0 <= total_size l.
Proof.
  induction 1 as [|x l Hx Hl IH]; [reflexivity|].
  rewrite total_size_cons. lia.
Qed.

Lemma sublist_nonneg (chosen l : list Package.t) :
  chosen `sublist_of` l ->
  Forall (fun pkg => 0 <= Package.size pkg) l ->
  Forall (fun pkg => 0 <= Package.size pkg) chosen.
Proof.
  induction 1 as [|x l1 l2 Hsub IH|x l1 l2 Hsub IH]; intros Hall;
    [constructor| |]; apply Forall_cons in Hall as [Hx Hall]; auto.
Qed.

(** The best total only grows. *)
Lemma explore_filled_mono (rest : list Package.t) (max_cap : Z) :
  forall current_size s,
    Z.max current_size (max_filled s)
    <= max_filled (explore rest max_cap current_size s).
Proof.
  induction rest as [|pkg rest IH]; intros current_size s; cbn [explore].
  - rewrite record_best_filled. lia.
  - pose proof (record_best_filled current_size s) as H0.
    destruct (_ <=? _).
    + etransitivity; [|apply IH]. cbn [max_filled].
      pose proof (IH (current_size + Package.size pkg)
                    (combo_append pkg (record_best current_size s))) as H1.
      cbn [combo_append max_filled] in H1. lia.
    + etransitivity; [|apply IH]. lia.
Qed.

Section Explore.
Variable max_cap : Z.

Local Abbreviation best_is_load := (best_is_load max_cap).

Lemma explore_sound (rest : list Package.t) :
  forall (seen : list Package.t) (current_size : Z) (s : Search),
    current_combo s `sublist_of` seen ->
    total_size (current_combo s) = current_size ->
    current_size <= max_cap ->
    best_is_load (seen ++ rest) s ->
    best_is_load (seen ++ rest) (explore rest max_cap current_size s).
Proof.
  induction rest as [|pkg rest IH];
    intros seen current_size s Hcombo Htotal Hcap Hbest.
  - cbn [explore]. unfold record_best.
    destruct (_ >? _); [|exact Hbest].
    split; [by apply sublist_inserts_r|]. by split.
  - assert (Hbest0 : best_is_load ((seen ++ [pkg]) ++ rest)
                       (record_best current_size s)).
    { rewrite <- app_assoc. cbn [app]. unfold record_best.
      destruct (_ >? _); [|exact Hbest].
      split; [by apply sublist_inserts_r|]. by split. }
    assert (Hskip : current_combo s `sublist_of` seen ++ [pkg])
      by (by apply sublist_inserts_r).
    replace (seen ++ pkg :: rest) with ((seen ++ [pkg]) ++ rest)
      by (by rewrite <- app_assoc).
    cbn [explore]. destruct (_ <=? _) eqn:Etake.
    + set (s1 := explore rest max_cap (current_size + Package.size pkg)
                   (combo_append pkg (record_best current_size s))).
      assert (Hcombo1 : current_combo s1
                        = current_combo s ++ [pkg]).
      { unfold s1. rewrite explore_combo. cbn [combo_append current_combo].
        by rewrite record_best_combo. }
      apply IH; cbn [current_combo].
      * by rewrite Hcombo1, removelast_last.
      * by rewrite Hcombo1, removelast_last.
      * exact Hcap.
      * apply (IH (seen ++ [pkg]) (current_size + Package.size pkg)
                 (combo_append pkg (record_best current_size s))).
        -- cbn [combo_append current_combo]. rewrite record_best_combo.
           by apply sublist_app.
        -- cbn [combo_append current_combo].
           rewrite record_best_combo, total_size_app, total_size_cons.
           cbn. lia.
        -- lia.
        -- exact Hbest0.
    + apply IH; try assumption.
      * by rewrite record_best_combo.
      * by rewrite record_best_combo.
Qed.

(** Every selection from the remaining packages that keeps the running
    total within the limit is reached, so its total is at most the best
    total recorded.  Sizes are not negative: a branch cut because it
    passes the limit cannot come back under it. *)
Lemma explore_complete (rest : list Package.t) :
  Forall (fun pkg => 0 <= Package.size pkg) rest ->
  forall (current_size : Z) (s : Search) (chosen : list Package.t),
    chosen `sublist_of` rest ->
    current_size + total_size chosen <= max_cap ->
    current_size + total_size chosen
    <= max_filled (explore rest max_cap current_size s).
Proof.
  induction 1 as [|pkg rest Hpkg Hrest IH];
    intros current_size s chosen Hsub Hfit.
  - apply sublist_nil_r in Hsub as ->. cbn [explore].
    rewrite record_best_filled. cbn. lia.
  - cbn [explore].
    apply sublist_cons_r in Hsub as [Hsub | (chosen' & -> & Hsub)].
    + destruct (_ <=? _); by apply IH.
    + rewrite total_size_cons in *.
      assert (0 <= total_size chosen').
      { apply total_size_nonneg. by eapply sublist_nonneg. }
      destruct (_ <=? _) eqn:Etake; [|lia].
      set (s1 := explore rest max_cap (current_size + Package.size pkg) _).
      pose proof (IH (current_size + Package.size pkg)
                    (combo_append pkg (record_best current_size s))
                    chosen' Hsub) as Hfirst.
      fold s1 in Hfirst.
      pose proof (explore_filled_mono rest max_cap current_size
                    (mkSearch (removelast (current_combo s1))
                              (best_combo s1) (max_filled s1))) as Hmono.
      cbn [max_filled] in Hmono. lia.
Qed.
End Explore.

Lemma solve_initial_best (packages : list Package.t) (max_cap : Z) :
  optimize_truck_space packages max_cap
  = Ok (best_combo (explore packages max_cap 0 (mkSearch [] [] 0))).
Proof.
  unfold optimize_truck_space. rewrite solve_explore by lia. reflexivity.
Qed.

(** C4.  For a limit that is not negative and packages whose sizes are not
    negative (a truck capacity and the sizes of the data model are
    positive), [optimize_truck_space] returns a selection
    of the input in input order whose total size is within the limit, and
    no selection of the input within the limit has a larger total.  For the
    sizes 50, 60, 40 and the limit 100 it returns the packages of sizes 60
    and 40. *)
Theorem optimize_truck_space_optimal
    (packages : list Package.t) (max_cap : Z)
    (Hcap : 0 <= max_cap)
    (Hsizes : Forall (fun pkg => 0 <= Package.size pkg) packages) :
  (exists best,
      optimize_truck_space packages max_cap = Ok best
      /\ best `sublist_of` packages
      /\ total_size best <= max_cap
      /\ forall other,
           other `sublist_of` packages ->
           total_size other <= max_cap ->
           total_size other <= total_size best)
  /\ optimize_truck_space cargo_list 100
     = Ok [Package.mk "BOX_B" 60 "CA"; Package.mk "BOX_C" 40 "TX"].
Proof.
  split; [|by rewrite solve_initial_best].
  eexists. split; [apply solve_initial_best|].
  pose proof (explore_sound max_cap packages [] 0 (mkSearch [] [] 0))
    as (Hsub & Htotal & Hfilled).
  { constructor. } { reflexivity. } { exact Hcap. }
  { split; [apply sublist_nil_l|]. by split. }
  cbn [app] in *. split; [exact Hsub|]. split; [lia|].
  intros other Hother Hfit. rewrite Htotal.
  pose proof (explore_complete max_cap packages Hsizes 0 (mkSearch [] [] 0)
                other Hother) as Hbest.
  lia.
Qed.

Lemma optimize_truck_space_optimal_witness :
  exists best,
    optimize_truck_space cargo_list 100 = Ok best
    /\ best `sublist_of` cargo_list
    /\ total_size best <= 100
    /\ forall other,
         other `sublist_of` cargo_list ->
         total_size other <= 100 ->
         total_size other <= total_size best.
Proof.
  refine (proj1 (optimize_truck_space_optimal cargo_list 100 _ _)).
  - lia.
  - repeat constructor; cbn; lia.
Defined.

(** With a negative size the cut of line 145 loses a load: the package of
    size 10 is refused at once, though with the package of size -5 it would
    give a total of 5 within the limit 7.  The data model has no such
    sizes. *)
Lemma optimize_truck_space_negative_size :
  let packages := [Package.mk "BOX_A" 10 "NY"; Package.mk "BOX_B" (-5) "CA"] in
  optimize_truck_space packages 7 = Ok []
  /\ packages `sublist_of` packages
  /\ total_size packages = 5.
Proof.
  cbv zeta. split; [by rewrite solve_initial_best|]. by split.
Qed.

(** C10. [optimize_truck_space] returns on every list and every limit.
    Every call of [solve] with [idx] up to [len(packages)] returns and
    raises nothing; the calls it makes are at [idx + 1], so the recursion
    is no deeper than the packages from [idx] on, plus one: run with that
    much fuel it gives the same result. *)
Theorem optimize_truck_space_terminates
    (packages : list Package.t) (max_cap : Z)
    (idx : nat) (current_size : Z) (s : Search)
    (Hidx : (idx <= length packages)%nat) :
  (exists best, optimize_truck_space packages max_cap = Ok best)
  /\ exists s',
       solve packages max_cap idx current_size s = Ok s'
       /\ solve_fuel (S (length packages - idx)) packages max_cap idx
            current_size s = Ok s'.
Proof.
  split; [eexists; apply solve_initial_best|].
  eexists. split; [by apply solve_explore|].
  apply solve_fuel_explore; lia.
Qed.

Lemma optimize_truck_space_terminates_witness :
  (exists best, optimize_truck_space cargo_list 100 = Ok best)
  /\ exists s',
       solve cargo_list 100 1 50 (mkSearch [Package.mk "BOX_A" 50 "NY"] [] 0)
       = Ok s'
       /\ solve_fuel 3 cargo_list 100 1 50
            (mkSearch [Package.mk "BOX_A" 50 "NY"] [] 0) = Ok s'.
Proof.
  apply (optimize_truck_space_terminates cargo_list 100 1 50
           (mkSearch [Package.mk "BOX_A" 50 "NY"] [] 0)).
  cbn. lia.
Defined.

(** ** The usage invariant *)

Lemma getitem_lookup {A : Type} (l : list A) (i : Z) (pos : nat) (x : A) :
  getitem l i = Ok (pos, x) -> l !! pos = Some x.
Proof.
  unfold getitem. destruct (_ || _); [discriminate|].
  destruct (l !! Z.to_nat _) eqn:Hget; [|discriminate].
  intros [= <- <-]. exact Hget.
Qed.

Lemma bin_of_row_in_bounds (r : Row) :
  row_in_bounds r -> within_capacity (bin_of_row r).
Proof.
  destruct r as [[[r0 r1] r2] r3]. unfold row_in_bounds, within_capacity.
  cbn. lia.
Qed.

Lemma load_inventory_in_bounds
    (self : WarehouseController.t) (rows : list Row) :
  Forall row_in_bounds rows ->
  Forall within_capacity (bins (load_inventory self rows)).
Proof.
  intros Hrows. cbn [load_inventory bins].
  eapply Permutation_Forall; [symmetry; apply list_sort_perm|].
  apply Forall_map. eapply Forall_impl; [exact Hrows|].
  apply bin_of_row_in_bounds.
Qed.

Lemma undo_last_load_bins (self : WarehouseController.t) :
  exists stack' pkg lines,
    undo_last_load self
    = Ok (WarehouseController.mk (bins self) (conveyor self) stack',
          pkg, lines).
Proof.
  destruct self as [bins conveyor stack].
  destruct stack as [|x stack _] using rev_ind.
  - by eexists _, _, _.
  - unfold undo_last_load.
    cbn [truck_stack WarehouseController.bins WarehouseController.conveyor].
    rewrite list_pop_snoc.
    destruct (stack ++ [x]) eqn:E; [by destruct stack|].
    by eexists _, _, _.
Qed.

Lemma apply_op_in_bounds (op : Op) (self : WarehouseController.t) :
  Forall within_capacity (bins self) ->
  loads_bins_in_bounds op ->
  exists self', apply_op op self = Ok self'
    /\ Forall within_capacity (bins self').
Proof.
  intros Hinv Hop.
  destruct op as [rows|pkg| |pkg| |packages max_cap|pos amount];
    cbn [apply_op].
  - eexists. split; [reflexivity|]. by apply load_inventory_in_bounds.
  - by eexists.
  - destruct (conveyor_loop_returns (conveyor self) (bins self))
      as (bins' & lines & Hloop & _ & Hkeep).
    unfold run_conveyor. rewrite Hloop. cbn. eexists. split; [reflexivity|].
    by apply Hkeep.
  - by eexists.
  - destruct (undo_last_load_bins self) as (stack' & pkg & lines & ->).
    cbn. by eexists.
  - rewrite solve_initial_best. cbn. by eexists.
  - destruct (getitem (bins self) (Z.of_nat pos)) as [[p curr]| |] eqn:Hget;
      try by eexists.
    eexists. split; [reflexivity|]. cbn.
    apply getitem_lookup in Hget.
    apply Forall_insert; [exact Hinv|].
    apply occupy_space_keeps_bound.
    exact (Forall_lookup_1 _ _ _ _ Hinv Hget).
Qed.

(** C6. From bins with [0 <= used_space <= capacity], every sequence of
    calls on the controller (loading rows that are themselves within
    bounds, queueing, conveyor runs, truck loads and undos, optimizer runs,
    and direct [occupy_space] calls that succeed or raise) returns and
    leaves [used_space <= capacity] in every bin. *)
Theorem usage_never_exceeds_capacity
    (ops : list Op) (self : WarehouseController.t)
    (Hbins : Forall (fun b => 0 <= StorageBin.used_space b
                              <= StorageBin.capacity b) (bins self))
    (Hops : Forall loads_bins_in_bounds ops) :
  exists self',
    apply_ops ops self = Ok self'
    /\ Forall (fun b => StorageBin.used_space b <= StorageBin.capacity b)
         (bins self').
Proof.
  assert (Hinv : Forall within_capacity (bins self)).
  { eapply Forall_impl; [exact Hbins|]. unfold within_capacity.
    intros b Hb. cbv beta in Hb. lia. }
  clear Hbins. revert self Hinv.
  induction Hops as [|op ops Hop Hops IH]; intros self Hinv.
  - by exists self.
  - destruct (apply_op_in_bounds op self Hinv Hop) as (self1 & Hstep & Hinv1).
    destruct (IH self1 Hinv1) as (self' & Hrest & Hinv').
    exists self'. cbn [apply_ops]. rewrite Hstep. cbn [bind].
    by split.
Qed.

Lemma usage_never_exceeds_capacity_witness :
  let ops :=
    [AddToConveyor (Package.mk "PKG_SMALL" 45 "NY");
     AddToConveyor (Package.mk "PKG_GIANT" 900 "CA");
     RunConveyor;
     OccupySpace 0 5;
     OccupySpace 0 1;
     LoadInventory seed_rows;
     OccupySpace 1 (-20)] in
  let self := load_inventory init seed_rows in
  exists self',
    apply_ops ops self = Ok self'
    /\ Forall (fun b => StorageBin.used_space b <= StorageBin.capacity b)
         (bins self').
Proof.
  intros ops self. apply (usage_never_exceeds_capacity ops self).
  - repeat constructor; cbn; lia.
  - repeat constructor; cbn; lia.
Defined.

(** ** When the search does find the best fit

    The loop halves the interval as if the bins that fit were a final
    segment of the registry.  On a registry where that holds it returns the
    first bin that fits. *)
Section FirstFit.
Variables (bins : list StorageBin.t) (pkg : Package.t).
Hypothesis fits_upward :
  forall (i j : nat) (bi bj : StorageBin.t),
    (i <= j)%nat -> bins !! i = Some bi -> bins !! j = Some bj ->
    fits bi pkg = true -> fits bj pkg = true.

Lemma search_loop_first_fit :
  forall (fuel : nat) (low high : Z) (best_fit : option (nat * StorageBin.t)),
    0 <= low <= high + 1 -> high < Z.of_nat (length bins) ->
    high - low + 1 <= Z.of_nat fuel ->
    (forall (i : nat) b,
        Z.of_nat i < low -> bins !! i = Some b -> fits b pkg = false) ->
    match best_fit with
    | Some (pos, curr) =>
        Z.of_nat pos = high + 1 /\ bins !! pos = Some curr
        /\ fits curr pkg = true
    | None => high + 1 = Z.of_nat (length bins)
    end ->
    search_loop fuel bins pkg low high best_fit
    = Ok (list_find (fun b => fits b pkg = true) bins).
Proof.
  induction fuel as [|fuel IH];
    intros low high best_fit Hlow Hhigh Hfuel Hbelow Hbest;
    cbn [search_loop]; destruct (low <=? high) eqn:E; try lia.
  1, 3: f_equal; symmetry; destruct best_fit as [[pos curr]|].
  1, 3: destruct Hbest as (Hpos & Hget & Hfits);
        apply list_find_Some; repeat split; try assumption;
        intros j y Hy Hj; rewrite (Hbelow j y) by (assumption || lia);
        discriminate.
  1, 2: apply list_find_None, Forall_forall; intros b Hb;
        apply list_elem_of_lookup in Hb as [i Hi];
        pose proof (lookup_lt_Some _ _ _ Hi);
        rewrite (Hbelow i b) by (assumption || lia); discriminate.
  apply Z.leb_le in E.
  assert (Hmid : low <= (low + high) / 2 <= high).
  { split; [apply Z.div_le_lower_bound | apply Z.div_le_upper_bound]; lia. }
  destruct (getitem_in_range bins ((low + high) / 2)) as (curr & -> & Hcurr);
    [lia|].
  cbn [bind snd]. destruct (fits curr pkg) eqn:Hfits.
  - apply IH; try lia; [|repeat split; try assumption; lia].
    intros i b Hi. apply Hbelow. lia.
  - apply IH; try lia; [|exact Hbest].
    intros i b Hi Hget. destruct (fits b pkg) eqn:Hb; [|reflexivity].
    rewrite <- Hfits. symmetry.
    apply (fits_upward i (Z.to_nat ((low + high) / 2)) b curr);
      try assumption.
    lia.
Qed.

Lemma find_bin_binary_search_first_fit :
  find_bin_binary_search bins pkg
  = Ok (list_find (fun b => fits b pkg = true) bins).
Proof.
  unfold find_bin_binary_search.
  apply search_loop_first_fit; intros; lia.
Qed.
End FirstFit.

(** * Further properties of the code *)

(** ** The search as a best-fit lookup *)

(** X1. When every bin that comes after a bin that fits also fits, the
    search returns the first bin of the registry that fits, and none when
    no bin fits. *)
Theorem find_bin_binary_search_upward_closed
    (bins : list StorageBin.t) (pkg : Package.t)
    (Hupward : forall (i j : nat) (bi bj : StorageBin.t),
        (i <= j)%nat -> bins !! i = Some bi -> bins !! j = Some bj ->
        fits bi pkg = true -> fits bj pkg = true) :
  find_bin_binary_search bins pkg
  = Ok (list_find (fun b => fits b pkg = true) bins).
Proof. by apply find_bin_binary_search_first_fit. Qed.

Lemma find_bin_binary_search_upward_closed_witness :
  let bins := WarehouseController.bins (load_inventory init seed_rows) in
  let pkg := Package.mk "PKG_HUGE" 120 "CA" in
  find_bin_binary_search bins pkg
  = Ok (list_find (fun b => fits b pkg = true) bins).
Proof.
  intros bins pkg. apply find_bin_binary_search_upward_closed.
  intros i j bi bj Hij Hi Hj.
  destruct i as [|[|[|[|[|i]]]]]; try discriminate Hi;
    injection Hi as <-; try discriminate;
    destruct j as [|[|[|[|[|j]]]]]; try discriminate Hj;
    injection Hj as <-; try reflexivity; lia.
Defined.

Lemma StronglySorted_lookup_lt {A : Type} (R : A -> A -> Prop) (l : list A) :
  StronglySorted R l ->
  forall (i j : nat) (a b : A),
    (i < j)%nat -> l !! i = Some a -> l !! j = Some b -> R a b.
Proof.
  induction 1 as [|x l Hl IH Hx]; intros i j a b Hij Hi Hj; [discriminate|].
  destruct j as [|j]; [lia|]. cbn in Hj.
  destruct i as [|i].
  - injection Hi as <-. rewrite List.Forall_forall in Hx. apply Hx.
    apply list_elem_of_In. by eapply list_elem_of_lookup_2.
  - cbn in Hi. apply (IH i j); [lia | assumption..].
Qed.

Lemma roomier_fits (a b : StorageBin.t) (pkg : Package.t) :
  roomier a b -> fits a pkg = true -> fits b pkg = true.
Proof.
  unfold roomier. rewrite !fits_spec. lia.
Qed.

Lemma best_fit_on_roomier (bins : list StorageBin.t) (pkg : Package.t)
    (Hsorted : StronglySorted roomier bins) :
  exists r,
    find_bin_binary_search bins pkg = Ok r
    /\ match r with
       | Some (pos, curr) =>
           bins !! pos = Some curr /\ fits curr pkg = true
           /\ Forall (fun b => fits b pkg = true ->
                               StorageBin.capacity curr <= StorageBin.capacity b)
                bins
       | None => Forall (fun b => fits b pkg = false) bins
       end.
Proof.
  eexists. split.
  { apply find_bin_binary_search_first_fit.
    intros i j bi bj Hij Hi Hj.
    destruct (decide (i = j)) as [->|Hne]; [congruence|].
    apply roomier_fits.
    apply (StronglySorted_lookup_lt _ _ Hsorted i j); [lia | assumption..]. }
  destruct (list_find _ bins) as [[pos curr]|] eqn:Hfind.
  - apply list_find_Some in Hfind as (Hget & Hfits & Hfirst).
    split; [exact Hget|]. split; [exact Hfits|].
    apply Forall_forall. intros b Hb Hbfits.
    apply list_elem_of_lookup in Hb as [j Hj].
    destruct (decide (j < pos)%nat) as [Hlt|Hge];
      [by destruct (Hfirst j b Hj Hlt)|].
    destruct (decide (j = pos)) as [->|Hne];
      [assert (b = curr) by congruence; subst; lia|].
    apply (StronglySorted_lookup_lt _ _ Hsorted pos j); [lia | assumption..].
  - apply list_find_None in Hfind.
    eapply Forall_impl; [exact Hfind|].
    intros b Hb. cbv beta in Hb.
    destruct (fits b pkg); [by destruct Hb | reflexivity].
Qed.

(** X2. On a registry in ascending capacity and ascending available space
    the search is a best fit: it returns a bin only if the bin fits, no bin
    that fits has a smaller capacity, and it returns none only if no bin
    fits. *)
Theorem find_bin_binary_search_best_fit
    (bins : list StorageBin.t) (pkg : Package.t)
    (Hsorted : StronglySorted roomier bins) :
  exists r,
    find_bin_binary_search bins pkg = Ok r
    /\ match r with
       | Some (pos, curr) =>
           bins !! pos = Some curr /\ fits curr pkg = true
           /\ Forall (fun b => fits b pkg = true ->
                               StorageBin.capacity curr <= StorageBin.capacity b)
                bins
       | None => Forall (fun b => fits b pkg = false) bins
       end.
Proof. by apply best_fit_on_roomier. Qed.

Lemma find_bin_binary_search_best_fit_witness :
  let bins := WarehouseController.bins (load_inventory init seed_rows) in
  let pkg := Package.mk "PKG_HUGE" 120 "CA" in
  exists r,
    find_bin_binary_search bins pkg = Ok r
    /\ match r with
       | Some (pos, curr) =>
           bins !! pos = Some curr /\ fits curr pkg = true
           /\ Forall (fun b => fits b pkg = true ->
                               StorageBin.capacity curr <= StorageBin.capacity b)
                bins
       | None => Forall (fun b => fits b pkg = false) bins
       end.
Proof.
  intros bins pkg. apply find_bin_binary_search_best_fit.
  vm_compute. repeat (apply SSorted_cons || apply SSorted_nil
    || apply List.Forall_cons || apply List.Forall_nil || split);
    discriminate.
Defined.

Lemma unused_sorted_roomier (l : list StorageBin.t) :
  Sorted capacity_le l ->
  Forall (fun b => StorageBin.used_space b = 0) l ->
  StronglySorted roomier l.
Proof.
  intros Hsorted Hunused.
  apply Sorted_StronglySorted in Hsorted;
    [|intros a b c; unfold capacity_le; lia].
  induction Hsorted as [|x l Hl IH Hx]; [constructor|].
  apply Forall_cons in Hunused as [Hx0 Hunused]. cbv beta in Hx0.
  constructor; [by apply IH|].
  rewrite List.Forall_forall in Hx, Hunused |- *. intros b Hb.
  specialize (Hx b Hb). specialize (Hunused b Hb).
  unfold roomier, capacity_le, StorageBin.available_space in *. lia.
Qed.

(** X3. Right after [load_inventory] has loaded rows whose usage is 0, the
    search is a best fit for every package: a bin it returns fits and has
    the least capacity among the bins that fit, and it returns none only
    when no bin fits. *)
Theorem load_inventory_unused_best_fit
    (self : WarehouseController.t) (rows : list Row) (pkg : Package.t)
    (Hrows : Forall row_unused rows) :
  let bins := WarehouseController.bins (load_inventory self rows) in
  exists r,
    find_bin_binary_search bins pkg = Ok r
    /\ match r with
       | Some (pos, curr) =>
           bins !! pos = Some curr /\ fits curr pkg = true
           /\ Forall (fun b => fits b pkg = true ->
                               StorageBin.capacity curr <= StorageBin.capacity b)
                bins
       | None => Forall (fun b => fits b pkg = false) bins
       end.
Proof.
  intros bins. apply best_fit_on_roomier.
  apply unused_sorted_roomier; [apply list_sort_sorted|].
  eapply Permutation_Forall; [symmetry; apply list_sort_perm|].
  apply Forall_map. eapply Forall_impl; [exact Hrows|].
  intros [[[r0 r1] r2] r3] Hr. exact Hr.
Qed.

Lemma load_inventory_unused_best_fit_witness :
  let bins := WarehouseController.bins (load_inventory init seed_rows) in
  let pkg := Package.mk "PKG_MID" 30 "TX" in
  exists r,
    find_bin_binary_search bins pkg = Ok r
    /\ match r with
       | Some (pos, curr) =>
           bins !! pos = Some curr /\ fits curr pkg = true
           /\ Forall (fun b => fits b pkg = true ->
                               StorageBin.capacity curr <= StorageBin.capacity b)
                bins
       | None => Forall (fun b => fits b pkg = false) bins
       end.
Proof.
  apply (load_inventory_unused_best_fit init seed_rows
           (Package.mk "PKG_MID" 30 "TX")).
  repeat (apply List.Forall_cons || apply List.Forall_nil); reflexivity.
Defined.

(** ** The number of probes *)

(** Fuel counts iterations of the loop: the loop started on an interval of
    fewer than [2 ^ fuel] positions ends within [fuel] iterations, with the
    result it has under any larger bound. *)
Lemma search_loop_log_fuel (bins : list StorageBin.t) (pkg : Package.t) :
  forall (fuel fuel' : nat) (low high : Z)
         (best_fit : option (nat * StorageBin.t)),
    high - low + 1 < 2 ^ Z.of_nat fuel ->
    high - low + 1 <= Z.of_nat fuel' ->
    search_loop fuel bins pkg low high best_fit
    = search_loop fuel' bins pkg low high best_fit.
Proof.
  induction fuel as [|fuel IH]; intros fuel' low high best_fit Hlog Hlin.
  - cbn [search_loop]. destruct (low <=? high) eqn:E; [cbn in Hlog; lia|].
    destruct fuel'; cbn [search_loop]; by rewrite E.
  - destruct fuel' as [|fuel']; cbn [search_loop];
      destruct (low <=? high) eqn:E; try reflexivity; [lia|].
    apply Z.leb_le in E.
    assert (Hmid : low <= (low + high) / 2 <= high).
    { split; [apply Z.div_le_lower_bound | apply Z.div_le_upper_bound]; lia. }
    assert (Hhalf : 2 * ((low + high) / 2) <= low + high
                    < 2 * ((low + high) / 2) + 2).
    { pose proof (Z.div_mod (low + high) 2).
      pose proof (Z.mod_pos_bound (low + high) 2). lia. }
    assert (Hpow : 2 ^ Z.of_nat (S fuel) = 2 * 2 ^ Z.of_nat fuel).
    { rewrite Nat2Z.inj_succ, Z.pow_succ_r by lia. reflexivity. }
    destruct (getitem bins ((low + high) / 2)) as [curr| |];
      cbn [bind]; try reflexivity.
    destruct (fits (snd curr) pkg); apply IH; lia.
Qed.

(** X4. The search makes about [log2 n] probes: on [n] bins, any [fuel]
    with [n < 2 ^ fuel] is enough for the loop to end with the result of
    [find_bin_binary_search]. *)
Theorem find_bin_binary_search_log_probes
    (bins : list StorageBin.t) (pkg : Package.t) (fuel : nat)
    (Hfuel : Z.of_nat (length bins) < 2 ^ Z.of_nat fuel) :
  exists r,
    find_bin_binary_search bins pkg = Ok r
    /\ search_loop fuel bins pkg 0 (Z.of_nat (length bins) - 1) None = Ok r.
Proof.
  destruct (find_bin_binary_search_returns bins pkg) as (r & Hr & _).
  exists r. split; [exact Hr|]. rewrite <- Hr. unfold find_bin_binary_search.
  apply search_loop_log_fuel; lia.
Qed.

Lemma find_bin_binary_search_log_probes_witness :
  let bins := WarehouseController.bins (load_inventory init seed_rows) in
  let pkg := Package.mk "PKG_HUGE" 120 "CA" in
  exists r,
    find_bin_binary_search bins pkg = Ok r
    /\ search_loop 3 bins pkg 0 (Z.of_nat (length bins) - 1) None = Ok r.
Proof.
  intros bins pkg. apply (find_bin_binary_search_log_probes bins pkg 3).
  reflexivity.
Defined.

(** ** What a conveyor run does to the registry *)

(** One package either finds no bin and leaves the bins alone, or is stored
    in a bin that fits, whose used space grows by the size of the package.
    The error of [occupy_space] does not occur: the test of the search
    implies the test of [occupy_space]. *)
Lemma store_package_cases (bins : list StorageBin.t) (pkg : Package.t) :
  exists bins' line,
    store_package bins pkg = Ok (bins', line)
    /\ ((line = NoSuitableBin (Package.tracking_id pkg) (Package.size pkg)
         /\ bins' = bins)
        \/ exists pos curr,
             bins !! pos = Some curr /\ fits curr pkg = true
             /\ line = Stored (Package.tracking_id pkg) (Package.size pkg)
                         (StorageBin.bin_id curr)
             /\ bins' = <[pos := StorageBin.set_used_space curr
                                   (StorageBin.used_space curr
                                    + Package.size pkg)]> bins).
Proof.
  unfold store_package.
  destruct (find_bin_binary_search_returns bins pkg) as (r & -> & Hcase).
  cbn [bind].
  destruct Hcase as [-> | (pos & curr & -> & Hget & Hfits)].
  - eexists _, _. split; [reflexivity|]. by left.
  - rewrite occupy_space_succeeds.
    + eexists _, _. split; [reflexivity|]. right. by exists pos, curr.
    + apply fits_spec in Hfits. unfold StorageBin.available_space in Hfits.
      lia.
Qed.

Lemma map_insert_same {A B : Type} (f : A -> B) (l : list A) :
  forall (i : nat) (x y : A),
    l !! i = Some y -> f x = f y -> map f (<[i := x]> l) = map f l.
Proof.
  induction l as [|a l IH]; intros i x y Hget Hf; [reflexivity|].
  destruct i as [|i]; cbn in *.
  - injection Hget as ->. by rewrite Hf.
  - f_equal. by apply (IH i x y).
Qed.

Lemma total_used_insert (l : list StorageBin.t) :
  forall (i : nat) (x y : StorageBin.t),
    l !! i = Some y ->
    total_used (<[i := x]> l)
    = total_used l - StorageBin.used_space y + StorageBin.used_space x.
Proof.
  induction l as [|a l IH]; intros i x y Hget; [discriminate|].
  destruct i as [|i]; cbn in Hget.
  - injection Hget as ->. unfold total_used. cbn. lia.
  - specialize (IH i x y Hget).
    change (<[S i := x]> (a :: l)) with (a :: <[i := x]> l).
    change (total_used (a :: <[i := x]> l))
      with (StorageBin.used_space a + total_used (<[i := x]> l)).
    change (total_used (a :: l))
      with (StorageBin.used_space a + total_used l).
    lia.
Qed.

Lemma Forall2_insert_used (l : list StorageBin.t) :
  forall (i : nat) (x y : StorageBin.t),
    l !! i = Some y ->
    StorageBin.used_space y <= StorageBin.used_space x ->
    Forall2 (fun b b' => StorageBin.used_space b <= StorageBin.used_space b')
      l (<[i := x]> l).
Proof.
  induction l as [|a l IH]; intros i x y Hget Hle; [constructor|].
  destruct i as [|i]; cbn in *.
  - injection Hget as ->. constructor; [exact Hle|].
    apply Forall2_same_length_lookup_2; [reflexivity|].
    intros j b b' Hb Hb'. assert (b = b') by congruence. subst. lia.
  - constructor; [lia|]. by apply (IH i x y).
Qed.

Section ConveyorRun.
Variable f : StorageBin.t -> Z * Z * string.
Hypothesis f_ignores_used :
  forall b u, f (StorageBin.set_used_space b u) = f b.

Lemma conveyor_loop_frame (queue : list Package.t) :
  forall bins bins' lines,
    conveyor_loop queue bins = Ok (bins', lines) ->
    map f bins' = map f bins.
Proof.
  induction queue as [|pkg queue IH]; intros bins bins' lines Hrun;
    cbn [conveyor_loop] in Hrun.
  - by injection Hrun as <- _.
  - destruct (store_package_cases bins pkg) as (bins1 & line & Hstore & Hcase).
    rewrite Hstore in Hrun. cbn [bind fst snd] in Hrun.
    destruct (conveyor_loop queue bins1) as [[bins2 lines2]| |] eqn:Hrest;
      try discriminate.
    cbn in Hrun. injection Hrun as <- _.
    rewrite (IH _ _ _ Hrest).
    destruct Hcase as [[_ ->] | (pos & curr & Hget & _ & _ & ->)];
      [reflexivity|].
    by apply (map_insert_same f bins pos _ curr).
Qed.
End ConveyorRun.

Lemma capacity_sorted_by_label (l l' : list StorageBin.t) :
  map bin_label l' = map bin_label l ->
  Sorted capacity_le l -> Sorted capacity_le l'.
Proof.
  intros Hlabels Hsorted. revert l' Hlabels.
  induction Hsorted as [|a l Hl IH Hhd]; intros [|a' l'] Hlabels;
    try discriminate; [constructor|].
  cbn [map] in Hlabels. injection Hlabels as _ Hcap _ Hlabels.
  constructor; [by apply IH|].
  destruct l as [|b l]; destruct l' as [|b' l']; try discriminate;
    constructor.
  apply HdRel_inv in Hhd.
  cbn [map] in Hlabels. injection Hlabels as _ Hcap' _ _.
  unfold capacity_le in *. congruence.
Qed.

(** X5. A conveyor run changes nothing of a bin but its used space: the
    bins keep their number, positions, ids, capacities and location codes,
    so a registry in ascending capacity stays in ascending capacity and
    needs no new sort. *)
Theorem run_conveyor_keeps_registry (self : WarehouseController.t) :
  exists self' lines,
    run_conveyor self = Ok (self', lines)
    /\ map bin_label (bins self') = map bin_label (bins self)
    /\ (Sorted capacity_le (bins self) -> Sorted capacity_le (bins self')).
Proof.
  destruct (conveyor_loop_returns (conveyor self) (bins self))
    as (bins' & lines & Hloop & _).
  unfold run_conveyor. rewrite Hloop. cbn [bind fst snd].
  eexists _, _. split; [reflexivity|]. cbn [bins].
  assert (Hlabels : map bin_label bins' = map bin_label (bins self)).
  { eapply conveyor_loop_frame; [|exact Hloop]. reflexivity. }
  split; [exact Hlabels|]. by apply capacity_sorted_by_label.
Qed.

Lemma run_conveyor_keeps_registry_witness :
  let self := fold_left add_to_conveyor incoming
                (load_inventory init seed_rows) in
  exists self' lines,
    run_conveyor self = Ok (self', lines)
    /\ map bin_label (bins self') = map bin_label (bins self)
    /\ Sorted capacity_le (bins self').
Proof.
  intros self.
  destruct (run_conveyor_keeps_registry self)
    as (self' & lines & Hrun & Hlabels & Hsorted).
  exists self', lines. split; [exact Hrun|]. split; [exact Hlabels|].
  apply Hsorted. apply list_sort_sorted.
Defined.

Lemma conveyor_loop_account (queue : list Package.t) :
  forall bins bins' lines,
    conveyor_loop queue bins = Ok (bins', lines) ->
    Forall (fun line => failed line = true ->
                        exists tid size, line = NoSuitableBin tid size) lines
    /\ total_used bins' = total_used bins + total_stored lines
    /\ (Forall (fun pkg => 0 <= Package.size pkg) queue ->
        Forall2 (fun b b' => StorageBin.used_space b
                             <= StorageBin.used_space b') bins bins').
Proof.
  induction queue as [|pkg queue IH]; intros bins bins' lines Hrun;
    cbn [conveyor_loop] in Hrun.
  - injection Hrun as <- <-. split; [constructor|]. split; [cbn; lia|].
    intros _. apply Forall2_same_length_lookup_2; [reflexivity|].
    intros j b b' Hb Hb'. assert (b = b') by congruence. subst. lia.
  - destruct (store_package_cases bins pkg) as (bins1 & line & Hstore & Hcase).
    rewrite Hstore in Hrun. cbn [bind fst snd] in Hrun.
    destruct (conveyor_loop queue bins1) as [[bins2 lines2]| |] eqn:Hrest;
      try discriminate.
    cbn in Hrun. injection Hrun as <- <-.
    destruct (IH _ _ _ Hrest) as (Hlines & Hused & Hmono).
    destruct Hcase as [[-> ->] | (pos & curr & Hget & _ & -> & ->)].
    + split; [constructor; [eauto|exact Hlines]|].
      split; [unfold total_stored in *; cbn; lia|].
      intros Hsizes. apply Forall_cons in Hsizes as [_ Hsizes]. auto.
    + split; [constructor; [discriminate|exact Hlines]|].
      split.
      * rewrite Hused, (total_used_insert bins pos _ curr Hget).
        unfold total_stored. cbn. lia.
      * intros Hsizes. apply Forall_cons in Hsizes as [Hsize Hsizes].
        cbv beta in Hsize.
        eapply Forall2_trans;
          [|eapply Forall2_insert_used | exact (Hmono Hsizes)];
          [intros a b c; cbv beta; lia | exact Hget | cbn; lia].
Qed.



(** X8. When no queued package has a negative size, a conveyor run never
    lowers the used space of any bin. *)
Theorem run_conveyor_used_space_grows (self : WarehouseController.t)
    (Hsizes : Forall (fun pkg => 0 <= Package.size pkg) (conveyor self)) :
  exists self' lines,
    run_conveyor self = Ok (self', lines)
    /\ Forall2 (fun b b' => StorageBin.used_space b
                            <= StorageBin.used_space b')
         (bins self) (bins self').
Proof.
  destruct (conveyor_loop_returns (conveyor self) (bins self))
    as (bins' & lines & Hloop & _).
  unfold run_conveyor. rewrite Hloop. cbn [bind fst snd].
  eexists _, _. split; [reflexivity|].
  destruct (conveyor_loop_account _ _ _ _ Hloop) as (_ & _ & Hmono).
  by apply Hmono.
Qed.

Lemma run_conveyor_used_space_grows_witness :
  let self := fold_left add_to_conveyor incoming
                (load_inventory init seed_rows) in
  exists self' lines,
    run_conveyor self = Ok (self', lines)
    /\ Forall2 (fun b b' => StorageBin.used_space b
                            <= StorageBin.used_space b')
         (bins self) (bins self').
Proof.
  intros self. apply (run_conveyor_used_space_grows self).
  repeat (apply List.Forall_cons || apply List.Forall_nil); cbn; lia.
Defined.

(** X9. Queueing a package and then running the conveyor is running the
    conveyor and then handling that package on the bins the run left: the
    package queued last is served last. *)
Theorem add_to_conveyor_then_run
    (self : WarehouseController.t) (pkg : Package.t) :
  exists self1 lines1 bins2 line,
    run_conveyor self = Ok (self1, lines1)
    /\ store_package (bins self1) pkg = Ok (bins2, line)
    /\ run_conveyor (add_to_conveyor self pkg)
       = Ok (WarehouseController.mk bins2 [] (truck_stack self),
             lines1 ++ [line]).
Proof.
  destruct (conveyor_loop_returns (conveyor self) (bins self))
    as (bins1 & lines1 & Hloop & _).
  destruct (store_package_returns bins1 pkg) as (bins2 & line & Hstore & _).
  exists (WarehouseController.mk bins1 [] (truck_stack self)), lines1,
    bins2, line.
  unfold run_conveyor, add_to_conveyor.
  cbn [bins conveyor truck_stack].
  rewrite conveyor_loop_app, Hloop. cbn [bind fst snd conveyor_loop].
  rewrite Hstore. cbn [bind fst snd]. by repeat split.
Qed.

(** ** The truck stack over several loads *)

Lemma load_truck_all_stack (packages : list Package.t) :
  forall self,
    load_truck_all self packages
    = WarehouseController.mk (bins self) (conveyor self)
        (truck_stack self ++ packages).
Proof.
  unfold load_truck_all.
  induction packages as [|pkg packages IH]; intros [bins conveyor stack].
  - cbn. by rewrite app_nil_r.
  - cbn [fold_left]. rewrite IH. cbn. by rewrite <- app_assoc.
Qed.

Lemma undo_last_load_snoc bins conveyor stack (x : Package.t) :
  undo_last_load (WarehouseController.mk bins conveyor (stack ++ [x]))
  = Ok (WarehouseController.mk bins conveyor stack, Some x,
        [UndoRemoved (Package.tracking_id x)]).
Proof.
  unfold undo_last_load.
  cbn [truck_stack WarehouseController.bins WarehouseController.conveyor].
  rewrite list_pop_snoc.
  destruct (stack ++ [x]) eqn:E; [by destruct stack|reflexivity].
Qed.

(** X11. Loading a list of packages and then undoing as many times gives
    the packages back last-loaded first and leaves the controller as it
    was before the loads. *)
Theorem load_all_then_undo_all
    (self : WarehouseController.t) (packages : list Package.t) :
  undo_times (length packages) (load_truck_all self packages)
  = Ok (self, map Some (rev packages)).
Proof.
  rewrite load_truck_all_stack. destruct self as [bins conveyor stack].
  cbn [WarehouseController.bins WarehouseController.conveyor truck_stack].
  induction packages as [|pkg packages IH] using rev_ind.
  - cbn. by rewrite app_nil_r.
  - rewrite length_app, Nat.add_comm. cbn [length Nat.add undo_times].
    rewrite app_assoc, undo_last_load_snoc. cbn [bind fst snd].
    rewrite IH. cbn [bind fst snd]. by rewrite rev_unit.
Qed.

(** ** More on the optimizer *)

Lemma record_best_keeps (current_size : Z) (s : Search) :
  current_size <= max_filled s -> record_best current_size s = s.
Proof.
  intros H. unfold record_best. destruct (_ >? _) eqn:E; [lia|reflexivity].
Qed.

(** Nothing is recorded once the recorded total cannot be beaten. *)
Lemma explore_no_gain (max_cap : Z) (rest : list Package.t) :
  Forall (fun pkg => 0 <= Package.size pkg) rest ->
  forall (current_size : Z) (s : Search),
    current_size + total_size rest <= max_filled s ->
    best_combo (explore rest max_cap current_size s) = best_combo s
    /\ max_filled (explore rest max_cap current_size s) = max_filled s.
Proof.
  induction 1 as [|pkg rest Hpkg Hrest IH]; intros current_size s Hmax.
  - cbn [explore]. rewrite record_best_keeps; [by split|].
    unfold total_size in Hmax. cbn in Hmax. lia.
  - rewrite total_size_cons in Hmax.
    pose proof (total_size_nonneg rest Hrest) as Hnonneg.
    cbn [explore]. rewrite record_best_keeps by lia.
    destruct (_ <=? _).
    + destruct (IH (current_size + Package.size pkg) (combo_append pkg s))
        as [Hbest Hfilled]; [cbn; lia|].
      cbn [combo_append best_combo max_filled] in Hbest, Hfilled.
      destruct (IH current_size
                  (mkSearch
                     (removelast
                        (current_combo
                           (explore rest max_cap
                              (current_size + Package.size pkg)
                              (combo_append pkg s))))
                     (best_combo
                        (explore rest max_cap
                           (current_size + Package.size pkg)
                           (combo_append pkg s)))
                     (max_filled
                        (explore rest max_cap
                           (current_size + Package.size pkg)
                           (combo_append pkg s)))))
        as [Hbest' Hfilled']; [cbn [max_filled]; lia|].
      cbn [best_combo max_filled] in Hbest', Hfilled'.
      split; congruence.
    + apply IH. lia.
Qed.

(** When everything from here on fits, the first descent takes it all and
    nothing met later beats it. *)
Lemma explore_all_fit (max_cap : Z) (rest : list Package.t) :
  Forall (fun pkg => 0 < Package.size pkg) rest ->
  forall (current_size : Z) (s : Search),
    current_size + total_size rest <= max_cap ->
    max_filled s < current_size
    \/ (max_filled s = current_size /\ best_combo s = current_combo s) ->
    best_combo (explore rest max_cap current_size s) = current_combo s ++ rest
    /\ max_filled (explore rest max_cap current_size s)
       = current_size + total_size rest.
Proof.
  induction 1 as [|pkg rest Hpkg Hrest IH]; intros current_size s Hfit Hs.
  - cbn [explore]. rewrite app_nil_r. unfold total_size. cbn [foldr].
    unfold record_best.
    destruct (_ >? _) eqn:E; cbn; [split; [reflexivity|lia]|].
    destruct Hs as [Hs|[Hs Hbest]]; [lia|]. split; [exact Hbest|lia].
  - rewrite total_size_cons in *.
    assert (Hnonneg : Forall (fun p => 0 <= Package.size p) rest).
    { eapply Forall_impl; [exact Hrest|]. intros p Hp. cbv beta in Hp. lia. }
    pose proof (total_size_nonneg rest Hnonneg) as Htotal.
    cbn [explore]. destruct (_ <=? _) eqn:Etake; [|lia].
    set (s0 := record_best current_size s).
    assert (Hs0 : max_filled s0 = current_size
                  /\ best_combo s0 = current_combo s
                  /\ current_combo s0 = current_combo s).
    { unfold s0, record_best. destruct (_ >? _) eqn:E; cbn; [by repeat split|].
      destruct Hs as [Hs|[Hs Hbest]]; [lia|]. by repeat split. }
    destruct Hs0 as (Hfilled0 & Hbest0 & Hcombo0).
    destruct (IH (current_size + Package.size pkg) (combo_append pkg s0))
      as [Hbest1 Hfilled1]; [lia | left; cbn; lia |].
    cbn [combo_append current_combo] in Hbest1.
    set (s1 := explore rest max_cap (current_size + Package.size pkg)
                 (combo_append pkg s0)) in *.
    destruct (explore_no_gain max_cap rest Hnonneg current_size
                (mkSearch (removelast (current_combo s1)) (best_combo s1)
                          (max_filled s1)))
      as [Hbest2 Hfilled2]; [cbn [max_filled]; lia|].
    cbn [best_combo max_filled] in Hbest2, Hfilled2.
    rewrite Hbest2, Hfilled2, Hbest1, Hfilled1, Hcombo0, <- app_assoc.
    split; [reflexivity|lia].
Qed.

(** X12. When the packages all have a positive size and fit on the truck
    together, the optimizer returns all of them, in input order. *)
Theorem optimize_truck_space_all_fit
    (packages : list Package.t) (max_cap : Z)
    (Hsizes : Forall (fun pkg => 0 < Package.size pkg) packages)
    (Hfit : total_size packages <= max_cap) :
  optimize_truck_space packages max_cap = Ok packages.
Proof.
  rewrite solve_initial_best. f_equal.
  destruct (explore_all_fit max_cap packages Hsizes 0 (mkSearch [] [] 0))
    as [Hbest _]; [lia | right; by split |].
  exact Hbest.
Qed.

Lemma optimize_truck_space_all_fit_witness :
  optimize_truck_space cargo_list 150 = Ok cargo_list.
Proof.
  apply optimize_truck_space_all_fit.
  - repeat (apply List.Forall_cons || apply List.Forall_nil); cbn; lia.
  - cbn. lia.
Defined.

Lemma sublist_singleton (pkg : Package.t) (l : list Package.t) :
  pkg ∈ l -> [pkg] `sublist_of` l.
Proof.
  induction 1 as [x l|x y l Hin IH].
  - apply sublist_skip, sublist_nil_l.
  - by apply sublist_cons.
Qed.

(** X13. With a limit that is not negative and packages of positive size,
    the optimizer returns the empty load exactly when no package fits on
    the truck by itself. *)
Theorem optimize_truck_space_empty_iff
    (packages : list Package.t) (max_cap : Z)
    (Hcap : 0 <= max_cap)
    (Hsizes : Forall (fun pkg => 0 < Package.size pkg) packages) :
  optimize_truck_space packages max_cap = Ok []
  <-> Forall (fun pkg => max_cap < Package.size pkg) packages.
Proof.
  assert (Hnonneg : Forall (fun p => 0 <= Package.size p) packages).
  { eapply Forall_impl; [exact Hsizes|]. intros p Hp. cbv beta in Hp. lia. }
  rewrite solve_initial_best.
  pose proof (explore_sound max_cap packages [] 0 (mkSearch [] [] 0))
    as (Hsub & Htotal & Hfilled).
  { constructor. } { reflexivity. } { exact Hcap. }
  { split; [apply sublist_nil_l|]. by split. }
  cbn [app] in Hsub.
  set (best := best_combo (explore packages max_cap 0 (mkSearch [] [] 0))) in *.
  split.
  - intros [= Hbest]. apply Forall_forall. intros pkg Hin.
    destruct (Z_lt_dec max_cap (Package.size pkg)) as [|Hsmall];
      [assumption|].
    pose proof (explore_complete max_cap packages Hnonneg 0
                  (mkSearch [] [] 0) [pkg] (sublist_singleton _ _ Hin))
      as Hreach.
    rewrite total_size_cons in Hreach.
    rewrite Forall_forall in Hsizes. specialize (Hsizes pkg Hin).
    rewrite <- Htotal, Hbest in Hreach. cbn in Hreach, Hsizes. lia.
  - intros Hbig. f_equal. destruct best as [|pkg best'] eqn:Ebest;
      [reflexivity|].
    exfalso.
    assert (Hin : pkg ∈ packages).
    { eapply elem_of_sublist; [|exact Hsub]. by left. }
    rewrite Forall_forall in Hbig. specialize (Hbig pkg Hin).
    assert (0 <= total_size best').
    { apply total_size_nonneg.
      eapply sublist_nonneg; [|exact Hnonneg].
      etransitivity; [|exact Hsub]. by apply sublist_cons. }
    rewrite total_size_cons in Htotal. cbn in Hbig. lia.
Qed.

Lemma optimize_truck_space_empty_iff_witness :
  optimize_truck_space cargo_list 30 = Ok []
  <-> Forall (fun pkg => 30 < Package.size pkg) cargo_list.
Proof.
  apply optimize_truck_space_empty_iff.
  - lia.
  - repeat (apply List.Forall_cons || apply List.Forall_nil); cbn; lia.
Defined.

(** X14. Backtracking is clean: a call of [solve] returns with the shared
    list [current_combo] holding what it held at the call, and with a best
    total that is not smaller than before. *)
Theorem solve_restores_current_combo
    (packages : list Package.t) (max_cap : Z)
    (idx : nat) (current_size : Z) (s : Search)
    (Hidx : (idx <= length packages)%nat) :
  exists s',
    solve packages max_cap idx current_size s = Ok s'
    /\ current_combo s' = current_combo s
    /\ max_filled s <= max_filled s'
    /\ current_size <= max_filled s'.
Proof.
  eexists. split; [by apply solve_explore|].
  split; [apply explore_combo|].
  pose proof (explore_filled_mono (drop idx packages) max_cap current_size s).
  lia.
Qed.

Lemma solve_restores_current_combo_witness :
  let s := mkSearch [Package.mk "BOX_A" 50 "NY"] [] 0 in
  exists s',
    solve cargo_list 100 1 50 s = Ok s'
    /\ current_combo s' = current_combo s
    /\ max_filled s <= max_filled s'
    /\ 50 <= max_filled s'.
Proof.
  intros s. apply (solve_restores_current_combo cargo_list 100 1 50 s).
  cbn. lia.
Defined.

(** ** Loading rows that are already in order *)

(** X15. Rows fetched in ascending capacity are loaded in the order in
    which they were fetched. *)
Theorem load_inventory_sorted_rows
    (self : WarehouseController.t) (rows : list Row)
    (Hrows : Sorted capacity_le (map bin_of_row rows)) :
  bins (load_inventory self rows) = map bin_of_row rows.
Proof.
  cbn [load_inventory bins]. symmetry.
  by apply stable_sort_unique.
Qed.

Lemma load_inventory_sorted_rows_witness :
  bins (load_inventory init seed_rows) = map bin_of_row seed_rows.
Proof.
  apply load_inventory_sorted_rows.
  repeat (apply Sorted_cons || apply Sorted_nil || apply HdRel_cons
          || apply HdRel_nil); unfold capacity_le; cbn; lia.
Defined.

(** ** Packages at the edges of the fit test *)

(** X16. Sizes are not checked: on bins with [0 <= used_space <= capacity]
    a package whose size is zero or negative passes the fit test of every
    bin, the search returns the first bin of the registry, and
    [occupy_space] on that bin succeeds and adds the size (lowering the
    used space when it is negative). *)
Theorem nonpositive_size_goes_to_first_bin
    (first : StorageBin.t) (others : list StorageBin.t) (pkg : Package.t)
    (Hbins : Forall (fun b => 0 <= StorageBin.used_space b
                              <= StorageBin.capacity b) (first :: others))
    (Hsize : Package.size pkg <= 0) :
  Forall (fun b => fits b pkg = true) (first :: others)
  /\ find_bin_binary_search (first :: others) pkg = Ok (Some (0%nat, first))
  /\ StorageBin.occupy_space first (Package.size pkg)
     = (StorageBin.set_used_space first
          (StorageBin.used_space first + Package.size pkg), Ok tt)
  /\ StorageBin.used_space first + Package.size pkg
     <= StorageBin.used_space first.
Proof.
  assert (Hfits : Forall (fun b => fits b pkg = true) (first :: others)).
  { eapply Forall_impl; [exact Hbins|]. intros b Hb. cbv beta in Hb.
    apply fits_spec. unfold StorageBin.available_space. lia. }
  split; [exact Hfits|]. split; [|split; [|lia]].
  - rewrite find_bin_binary_search_first_fit.
    + f_equal. apply list_find_Some. split; [reflexivity|].
      split; [by apply Forall_cons in Hfits as [? _]|]. intros; lia.
    + intros i j bi bj _ _ Hj _. rewrite Forall_forall in Hfits.
      apply Hfits. by eapply list_elem_of_lookup_2.
  - apply occupy_space_succeeds.
    apply Forall_cons in Hbins as [Hfirst _]. cbv beta in Hfirst. lia.
Qed.

Lemma nonpositive_size_goes_to_first_bin_witness :
  let first := StorageBin.mk 1 50 "A1" 45 in
  let others := [StorageBin.mk 2 100 "A2" 0] in
  let pkg := Package.mk "PKG_NEG" (-20) "NY" in
  Forall (fun b => fits b pkg = true) (first :: others)
  /\ find_bin_binary_search (first :: others) pkg = Ok (Some (0%nat, first))
  /\ StorageBin.occupy_space first (-20)
     = (StorageBin.mk 1 50 "A1" 25, Ok tt)
  /\ 45 + -20 <= 45.
Proof.
  intros first others pkg.
  apply (nonpositive_size_goes_to_first_bin first others pkg).
  - repeat (apply List.Forall_cons || apply List.Forall_nil); cbn; lia.
  - cbn. lia.
Defined.

(** X17. A package that no bin fits is reported as having no suitable bin
    and the bins are left as they are; on an empty registry this is so for
    every package. *)
Theorem store_package_no_fit
    (bins : list StorageBin.t) (pkg : Package.t)
    (Hnone : Forall (fun b => fits b pkg = false) bins) :
  find_bin_binary_search bins pkg = Ok None
  /\ store_package bins pkg
     = Ok (bins, NoSuitableBin (Package.tracking_id pkg) (Package.size pkg)).
Proof.
  assert (Hfind : find_bin_binary_search bins pkg = Ok None).
  { destruct (find_bin_binary_search_returns bins pkg)
      as (r & Hr & [-> | (pos & curr & -> & Hget & Hfits)]); [exact Hr|].
    rewrite Forall_forall in Hnone.
    rewrite (Hnone curr) in Hfits; [discriminate|].
    by eapply list_elem_of_lookup_2. }
  split; [exact Hfind|]. unfold store_package. by rewrite Hfind.
Qed.

Lemma store_package_no_fit_witness :
  let bins := WarehouseController.bins (load_inventory init seed_rows) in
  let pkg := Package.mk "PKG_GIANT" 900 "CA" in
  find_bin_binary_search bins pkg = Ok None
  /\ store_package bins pkg = Ok (bins, NoSuitableBin "PKG_GIANT" 900).
Proof.
  intros bins pkg. apply (store_package_no_fit bins pkg).
  repeat (apply List.Forall_cons || apply List.Forall_nil); reflexivity.
Defined.

(** ** The optimizer across limits, and which optimum it returns *)

Lemma optimize_truck_space_best_total
    (packages : list Package.t) (max_cap : Z) :
  0 <= max_cap ->
  Forall (fun pkg => 0 <= Package.size pkg) packages ->
  exists best,
    optimize_truck_space packages max_cap = Ok best
    /\ best `sublist_of` packages
    /\ total_size best <= max_cap
    /\ forall other,
         other `sublist_of` packages -> total_size other <= max_cap ->
         total_size other <= total_size best.
Proof.
  intros Hcap Hsizes. eexists. split; [apply solve_initial_best|].
  pose proof (explore_sound max_cap packages [] 0 (mkSearch [] [] 0))
    as (Hsub & Htotal & Hfilled).
  { constructor. } { reflexivity. } { exact Hcap. }
  { split; [apply sublist_nil_l|]. by split. }
  cbn [app] in *. split; [exact Hsub|]. split; [lia|].
  intros other Hother Hfit. rewrite Htotal.
  pose proof (explore_complete max_cap packages Hsizes 0 (mkSearch [] [] 0)
                other Hother) as Hbest.
  lia.
Qed.

(** X18. A larger truck never gets a lighter load: for limits
    [0 <= small <= large] and packages of non-negative size, the total size
    returned for [large] is at least the total size returned for [small]. *)
Theorem optimize_truck_space_monotone
    (packages : list Package.t) (small large : Z)
    (Hsmall : 0 <= small) (Hlarge : small <= large)
    (Hsizes : Forall (fun pkg => 0 <= Package.size pkg) packages) :
  exists best_small best_large,
    optimize_truck_space packages small = Ok best_small
    /\ optimize_truck_space packages large = Ok best_large
    /\ total_size best_small <= total_size best_large.
Proof.
  destruct (optimize_truck_space_best_total packages small Hsmall Hsizes)
    as (b1 & Hrun1 & Hsub1 & Hfit1 & _).
  destruct (optimize_truck_space_best_total packages large) as
    (b2 & Hrun2 & _ & _ & Hopt2); [lia | exact Hsizes |].
  exists b1, b2. split; [exact Hrun1|]. split; [exact Hrun2|].
  apply Hopt2; [exact Hsub1 | lia].
Qed.

Lemma optimize_truck_space_monotone_witness :
  exists best_small best_large,
    optimize_truck_space cargo_list 95 = Ok best_small
    /\ optimize_truck_space cargo_list 100 = Ok best_large
    /\ total_size best_small <= total_size best_large.
Proof.
  apply optimize_truck_space_monotone.
  - lia.
  - lia.
  - repeat (apply List.Forall_cons || apply List.Forall_nil); cbn; lia.
Defined.

Lemma explore_visits (max_cap : Z) (rest : list Package.t) :
  forall (current_size : Z) (s : Search),
    total_size (current_combo s) = current_size ->
    (best_combo (explore rest max_cap current_size s),
     max_filled (explore rest max_cap current_size s))
    = fold_left keep_better
        (visits rest max_cap current_size (current_combo s))
        (best_combo s, max_filled s).
Proof.
  assert (Hrecord : forall current_size s,
    total_size (current_combo s) = current_size ->
    (best_combo (record_best current_size s),
     max_filled (record_best current_size s))
    = keep_better (best_combo s, max_filled s) (current_combo s)).
  { intros current_size s <-. unfold record_best, keep_better. cbn [snd].
    by destruct (_ >? _). }
  induction rest as [|pkg rest IH]; intros current_size s Htotal;
    cbn [explore visits fold_left].
  - by apply Hrecord.
  - rewrite fold_left_app, <- (Hrecord current_size s Htotal).
    rewrite <- (record_best_combo current_size s).
    set (s0 := record_best current_size s).
    assert (Htotal0 : total_size (current_combo s0) = current_size)
      by (unfold s0; by rewrite record_best_combo).
    destruct (_ <=? _).
    + set (s1 := explore rest max_cap (current_size + Package.size pkg)
                   (combo_append pkg s0)).
      assert (Hcombo1 : current_combo s1 = current_combo s0 ++ [pkg])
        by apply explore_combo.
      rewrite (IH current_size
                 (mkSearch (removelast (current_combo s1)) (best_combo s1)
                           (max_filled s1)));
        cbn [current_combo best_combo max_filled];
        rewrite Hcombo1, removelast_last; [|exact Htotal0].
      f_equal. unfold s1.
      rewrite (IH (current_size + Package.size pkg) (combo_append pkg s0));
        [reflexivity|].
      cbn [combo_append current_combo].
      rewrite total_size_app, total_size_cons. cbn. lia.
    + cbn [fold_left]. by apply IH.
Qed.

(** Folding [keep_better] keeps the first of the combinations with the
    largest total, when one beats the start. *)
Lemma keep_better_first_max (l : list (list Package.t)) :
  forall (best : list Package.t) (filled : Z) (result : list Package.t * Z),
    result = fold_left keep_better l (best, filled) ->
    (result = (best, filled)
     /\ Forall (fun c => total_size c <= filled) l)
    \/ exists before after,
         l = before ++ fst result :: after
         /\ snd result = total_size (fst result)
         /\ filled < snd result
         /\ Forall (fun c => total_size c < snd result) before
         /\ Forall (fun c => total_size c <= snd result) after.
Proof.
  induction l as [|c l IH]; intros best filled result Hresult;
    cbn [fold_left] in Hresult.
  - left. by split.
  - destruct (total_size c >? filled) eqn:E.
    + assert (Hkeep : keep_better (best, filled) c = (c, total_size c))
        by (unfold keep_better; cbn [snd]; by rewrite E).
      rewrite Hkeep in Hresult. right.
      destruct (IH c (total_size c) result Hresult)
        as [[Hsame Hall] | (before & after & Hl & Hsnd & Hlt & Hb & Ha)].
      * rewrite Hsame. cbn [fst snd].
        exists [], l. repeat split; [lia | constructor | exact Hall].
      * exists (c :: before), after. rewrite Hl at 1.
        repeat split; try assumption; [lia|].
        constructor; [lia | exact Hb].
    + assert (Hkeep : keep_better (best, filled) c = (best, filled))
        by (unfold keep_better; cbn [snd]; by rewrite E).
      rewrite Hkeep in Hresult.
      destruct (IH best filled result Hresult)
        as [[Hsame Hall] | (before & after & Hl & Hsnd & Hlt & Hb & Ha)].
      * left. split; [exact Hsame|]. constructor; [lia | exact Hall].
      * right. exists (c :: before), after. rewrite Hl at 1.
        repeat split; try assumption.
        constructor; [lia | exact Hb].
Qed.

(** X19. Which load is returned: of the combinations that the calls of
    [solve] visit, in call order (take before skip), the optimizer returns
    the first one whose total size is the largest; every combination
    visited earlier has a strictly smaller total. *)
Theorem optimize_truck_space_first_maximum
    (packages : list Package.t) (max_cap : Z) :
  exists best before after,
    optimize_truck_space packages max_cap = Ok best
    /\ visits packages max_cap 0 [] = before ++ best :: after
    /\ Forall (fun c => total_size c < total_size best) before
    /\ Forall (fun c => total_size c <= total_size best) after.
Proof.
  pose proof (explore_visits max_cap packages 0 (mkSearch [] [] 0) eq_refl)
    as Hfold.
  cbn [current_combo best_combo max_filled] in Hfold.
  set (final := explore packages max_cap 0 (mkSearch [] [] 0)) in *.
  destruct (keep_better_first_max (visits packages max_cap 0 []) [] 0
              (best_combo final, max_filled final) Hfold)
    as [[Hsame Hall] | (before & after & Hl & Hsnd & _ & Hb & Ha)].
  - injection Hsame as Hbest _.
    exists [], [], (tail (visits packages max_cap 0 [])).
    rewrite solve_initial_best. fold final. rewrite Hbest.
    destruct packages; cbn [visits tail app] in *;
      apply Forall_cons in Hall as [_ Hall]; by repeat split.
  - cbn [fst snd] in Hl, Hsnd, Hb, Ha.
    exists (best_combo final), before, after.
    split; [apply solve_initial_best|].
    rewrite <- Hsnd. by repeat split.
Qed.

(** ** The conveyor and the database *)

Lemma store_package_db_cases (clock : nat -> string)
    (bins : list StorageBin.t) (w : World) (pkg : Package.t) :
  exists bins' w' line,
    store_package_db clock bins w pkg = Ok (bins', w', line)
    /\ store_package bins pkg = Ok (bins', line)
    /\ ((logged line = None /\ bins' = bins /\ w' = w)
        \/ exists pos curr,
             let curr' := StorageBin.set_used_space curr
                            (StorageBin.used_space curr + Package.size pkg) in
             bins !! pos = Some curr
             /\ line = Stored (Package.tracking_id pkg) (Package.size pkg)
                         (StorageBin.bin_id curr)
             /\ bins' = <[pos := curr']> bins
             /\ w' = log_action clock
                       (mkWorld (update_bin_db (database w) curr') (ticks w))
                       (Package.tracking_id pkg)
                       (Some (StorageBin.bin_id curr)) "STORED").
Proof.
  unfold store_package_db, store_package.
  destruct (find_bin_binary_search_returns bins pkg) as (r & -> & Hcase).
  cbn [bind].
  destruct Hcase as [-> | (pos & curr & -> & Hget & Hfits)].
  - eexists _, _, _. split; [reflexivity|]. split; [reflexivity|]. by left.
  - rewrite occupy_space_succeeds.
    + eexists _, _, _. split; [reflexivity|]. split; [reflexivity|].
      right. by exists pos, curr.
    + apply fits_spec in Hfits. unfold StorageBin.available_space in Hfits.
      lia.
Qed.

Lemma bin_of_row_update (bin_obj : StorageBin.t) (r : Row) :
  bin_of_row (update_row bin_obj r) = update_matching bin_obj (bin_of_row r).
Proof.
  destruct r as [[[r0 r1] r2] r3]. unfold update_row, update_matching.
  cbn. by destruct (_ =? _).
Qed.

Lemma list_sort_map (h : StorageBin.t -> StorageBin.t)
    (l : list StorageBin.t) :
  (forall b, StorageBin.capacity (h b) = StorageBin.capacity b) ->
  list_sort StorageBin.lt (map h l) = map h (list_sort StorageBin.lt l).
Proof.
  intros Hcap.
  assert (Hinsert : forall x l',
    sort_insert StorageBin.lt (h x) (map h l')
    = map h (sort_insert StorageBin.lt x l')).
  { intros x l'. induction l' as [|e r IH]; [reflexivity|].
    cbn [map sort_insert]. unfold StorageBin.lt at 1 3.
    rewrite !Hcap. destruct (_ <? _); [|reflexivity].
    cbn [map]. by rewrite IH. }
  induction l as [|x r IH]; [reflexivity|].
  cbn [map list_sort]. by rewrite IH, Hinsert.
Qed.

Lemma update_matching_other (bin_obj : StorageBin.t) (l : list StorageBin.t) :
  StorageBin.bin_id bin_obj ∉ map StorageBin.bin_id l ->
  map (update_matching bin_obj) l = l.
Proof.
  induction l as [|b l IH]; intros Hnot; [reflexivity|].
  cbn [map] in *. apply not_elem_of_cons in Hnot as [Hne Hnot].
  rewrite IH by assumption. unfold update_matching.
  destruct (_ =? _) eqn:E; [lia|reflexivity].
Qed.

Lemma update_matching_insert (l : list StorageBin.t) :
  forall (pos : nat) (curr : StorageBin.t) (u : Z),
    NoDup (map StorageBin.bin_id l) ->
    l !! pos = Some curr ->
    map (update_matching (StorageBin.set_used_space curr u)) l
    = <[pos := StorageBin.set_used_space curr u]> l.
Proof.
  induction l as [|b l IH]; intros pos curr u Hnodup Hget; [discriminate|].
  cbn [map] in Hnodup. apply NoDup_cons in Hnodup as [Hb Hnodup].
  destruct pos as [|pos]; cbn in Hget.
  - injection Hget as ->. cbn [map].
    rewrite update_matching_other by exact Hb.
    unfold update_matching. cbn. by rewrite Z.eqb_refl.
  - cbn [map]. change (<[S pos := ?x]> (b :: l)) with (b :: <[pos := x]> l).
    rewrite (IH pos curr u Hnodup Hget). f_equal.
    unfold update_matching. cbn.
    destruct (_ =? _) eqn:E; [|reflexivity].
    exfalso. apply Hb. apply Z.eqb_eq in E.
    apply list_elem_of_In, List.in_map_iff. exists curr.
    split; [by rewrite E|].
    apply list_elem_of_In. by eapply list_elem_of_lookup_2.
Qed.

Lemma in_sync_ids (bins : list StorageBin.t) (db : Database) :
  in_sync bins db ->
  NoDup (map row_bin_id (bins_table db)) ->
  NoDup (map StorageBin.bin_id bins).
Proof.
  intros <- Hnodup.
  assert (Hperm : Permutation
            (map StorageBin.bin_id
               (list_sort StorageBin.lt (map bin_of_row (bins_table db))))
            (map StorageBin.bin_id (map bin_of_row (bins_table db))))
    by apply Permutation_map, list_sort_perm.
  rewrite Hperm, map_map.
  erewrite map_ext; [exact Hnodup|].
  by intros [[[r0 r1] r2] r3].
Qed.

Lemma update_bin_db_ids (db : Database) (bin_obj : StorageBin.t) :
  map row_bin_id (bins_table (update_bin_db db bin_obj))
  = map row_bin_id (bins_table db).
Proof.
  cbn. rewrite map_map. apply map_ext.
  intros [[[r0 r1] r2] r3]. unfold update_row. by destruct (_ =? _).
Qed.

Lemma update_bin_db_in_sync (bins : list StorageBin.t) (db : Database)
    (pos : nat) (curr : StorageBin.t) (u : Z) :
  NoDup (map row_bin_id (bins_table db)) ->
  in_sync bins db ->
  bins !! pos = Some curr ->
  in_sync (<[pos := StorageBin.set_used_space curr u]> bins)
    (update_bin_db db (StorageBin.set_used_space curr u)).
Proof.
  intros Hnodup Hsync Hget.
  pose proof (in_sync_ids _ _ Hsync Hnodup) as Hids.
  unfold in_sync in *. cbn [update_bin_db bins_table].
  rewrite map_map.
  erewrite map_ext; [|intros r; apply bin_of_row_update].
  rewrite <- (map_map bin_of_row), list_sort_map, Hsync.
  - by apply update_matching_insert.
  - intros b. unfold update_matching. by destruct (_ =? _).
Qed.

Lemma conveyor_loop_db_sync (clock : nat -> string) (queue : list Package.t) :
  forall (bins : list StorageBin.t) (w : World),
    NoDup (map row_bin_id (bins_table (database w))) ->
    in_sync bins (database w) ->
    exists bins' w' lines,
      conveyor_loop_db clock queue bins w = Ok (bins', w', lines)
      /\ conveyor_loop queue bins = Ok (bins', lines)
      /\ in_sync bins' (database w')
      /\ map row_bin_id (bins_table (database w'))
         = map row_bin_id (bins_table (database w)).
Proof.
  induction queue as [|pkg queue IH]; intros bins w Hnodup Hsync.
  - exists bins, w, []. by repeat split.
  - destruct (store_package_db_cases clock bins w pkg)
      as (bins1 & w1 & line & Hdb & Hmem & Hcase).
    assert (Hstep : in_sync bins1 (database w1)
                    /\ map row_bin_id (bins_table (database w1))
                       = map row_bin_id (bins_table (database w))).
    { destruct Hcase as [(_ & -> & ->) | (pos & curr & Hget & _ & -> & ->)];
        [by split|].
      cbn [log_action database bins_table].
      split; [by apply update_bin_db_in_sync | apply update_bin_db_ids]. }
    destruct Hstep as [Hsync1 Hids1].
    destruct (IH bins1 w1) as (bins2 & w2 & lines & Hdb2 & Hmem2 & Hsync2 & Hids2);
      [by rewrite Hids1 | exact Hsync1 |].
    exists bins2, w2, (line :: lines).
    cbn [conveyor_loop_db conveyor_loop].
    rewrite Hdb, Hmem. cbn [bind fst snd]. rewrite Hdb2, Hmem2.
    cbn [bind fst snd]. repeat split; [exact Hsync2 | congruence].
Qed.


(** X20. The database mirrors the registry across a conveyor run.  When
    the bin ids of the [bins] table are distinct and the bins in memory are
    what [load_inventory] would load from it, the run with its database
    writes does to memory exactly what [run_conveyor] does, changes no bin
    id of the table, and leaves a table from which [load_inventory] loads
    the bins that are in memory after the run. *)
Theorem run_conveyor_db_persists (clock : nat -> string)
    (self : WarehouseController.t) (w : World)
    (Hids : NoDup (map row_bin_id (bins_table (database w))))
    (Hsync : bins (load_inventory self (bins_table (database w)))
             = bins self) :
  exists self' w' lines,
    run_conveyor_db clock self w = Ok (self', w', lines)
    /\ run_conveyor self = Ok (self', lines)
    /\ bins (load_inventory self' (bins_table (database w'))) = bins self'
    /\ map row_bin_id (bins_table (database w'))
       = map row_bin_id (bins_table (database w)).
Proof.
  destruct (conveyor_loop_db_sync clock (conveyor self) (bins self) w Hids Hsync)
    as (bins' & w' & lines & Hdb & Hmem & Hsync' & Hids').
  unfold run_conveyor_db, run_conveyor. rewrite Hdb, Hmem.
  cbn [bind fst snd]. eexists _, _, _. by repeat split.
Qed.

Lemma run_conveyor_db_persists_witness :
  let clock := fun _ : nat => "2026-01-01T00:00:00" in
  let self := fold_left add_to_conveyor incoming
                (load_inventory init seed_rows) in
  let w := mkWorld (mkDatabase seed_rows []) 0 in
  exists self' w' lines,
    run_conveyor_db clock self w = Ok (self', w', lines)
    /\ run_conveyor self = Ok (self', lines)
    /\ bins (load_inventory self' (bins_table (database w'))) = bins self'
    /\ map row_bin_id (bins_table (database w'))
       = map row_bin_id (bins_table (database w)).
Proof.
  intros clock self w. apply (run_conveyor_db_persists clock self w).
  - apply NoDup_ListNoDup.
    repeat (apply List.NoDup_cons || apply List.NoDup_nil); cbn; lia.
  - reflexivity.
Defined.


Lemma conveyor_loop_db_empty_registry (clock : nat -> string)
    (queue : list Package.t) (w : World) :
  conveyor_loop_db clock queue [] w
  = Ok ([], w,
        map (fun pkg => NoSuitableBin (Package.tracking_id pkg)
                          (Package.size pkg)) queue).
Proof.
  induction queue as [|pkg queue IH]; [reflexivity|].
  cbn [conveyor_loop_db map]. unfold store_package_db.
  destruct (find_bin_binary_search_returns [] pkg)
    as (r & -> & [-> | (pos & curr & _ & Hget & _)]); [|discriminate].
  cbn [bind fst snd]. rewrite IH. reflexivity.
Qed.

(** X22. A fresh connection starts from no bins: [connect_db] empties the
    [bins] table and keeps the shipment log; [load_inventory] then loads
    an empty registry, and a conveyor run on it reports every queued
    package as having no suitable bin and writes nothing to the database. *)
Theorem connect_db_then_run (clock : nat -> string)
    (self : WarehouseController.t) (db : Database) (readings : nat) :
  let db' := connect_db db in
  let loaded := load_inventory self (bins_table db') in
  shipment_logs db' = shipment_logs db
  /\ bins loaded = []
  /\ run_conveyor_db clock loaded (mkWorld db' readings)
     = Ok (WarehouseController.mk [] [] (truck_stack self),
           mkWorld db' readings,
           map (fun pkg => NoSuitableBin (Package.tracking_id pkg)
                             (Package.size pkg)) (conveyor self)).
Proof.
  cbn zeta. split; [reflexivity|]. split; [reflexivity|].
  unfold run_conveyor_db.
  cbn [connect_db bins_table load_inventory map list_sort bins conveyor
       truck_stack].
  by rewrite conveyor_loop_db_empty_registry.
Qed.

Lemma conveyor_loop_db_memory (clock : nat -> string)
    (queue : list Package.t) :
  forall (bins : list StorageBin.t) (w : World),
    exists bins' w' lines,
      conveyor_loop_db clock queue bins w = Ok (bins', w', lines)
      /\ conveyor_loop queue bins = Ok (bins', lines).
Proof.
  induction queue as [|pkg queue IH]; intros bins w.
  - by exists bins, w, [].
  - destruct (store_package_db_cases clock bins w pkg)
      as (bins1 & w1 & line & Hdb & Hmem & _).
    destruct (IH bins1 w1) as (bins2 & w2 & lines & Hdb2 & Hmem2).
    exists bins2, w2, (line :: lines).
    cbn [conveyor_loop_db conveyor_loop].
    rewrite Hdb, Hmem. cbn [bind fst snd]. rewrite Hdb2, Hmem2.
    by split.
Qed.

(** X7. With a store that executes each statement it is given, a conveyor
    run accounts for every unit it stores: the used space summed over the
    bins grows by exactly the sizes summed over the packages reported as
    stored. *)
Theorem run_conveyor_db_conserves_space (clock : nat -> string)
    (self : WarehouseController.t) (w : World) :
  exists self' w' lines,
    run_conveyor_db clock self w = Ok (self', w', lines)
    /\ total_used (bins self') = total_used (bins self) + total_stored lines.
Proof.
  destruct (conveyor_loop_db_memory clock (conveyor self) (bins self) w)
    as (bins' & w' & lines & Hdb & Hmem).
  unfold run_conveyor_db. rewrite Hdb. cbn [bind fst snd].
  eexists _, _, _. split; [reflexivity|].
  by destruct (conveyor_loop_account _ _ _ _ Hmem) as (_ & Hused & _).
Qed.

(** ** The optimizer below its domain *)

Lemma explore_negative_limit (max_cap : Z) (rest : list Package.t) :
  max_cap < 0 ->
  Forall (fun pkg => 0 <= Package.size pkg) rest ->
  forall s : Search,
    0 <= max_filled s -> explore rest max_cap 0 s = s.
Proof.
  intros Hcap. induction 1 as [|pkg rest Hpkg Hrest IH]; intros s Hfilled;
    cbn [explore]; rewrite record_best_keeps by lia; [reflexivity|].
  destruct (_ <=? _) eqn:E; [lia|]. by apply IH.
Qed.

(** X23. With a negative limit and packages of non-negative size nothing
    is ever taken: the optimizer returns the empty load (whose total, 0, is
    above the limit). *)
Theorem optimize_truck_space_negative_limit
    (packages : list Package.t) (max_cap : Z)
    (Hcap : max_cap < 0)
    (Hsizes : Forall (fun pkg => 0 <= Package.size pkg) packages) :
  optimize_truck_space packages max_cap = Ok [].
Proof.
  rewrite solve_initial_best.
  rewrite explore_negative_limit; [reflexivity | assumption.. | cbn; lia].
Qed.

Lemma optimize_truck_space_negative_limit_witness :
  optimize_truck_space cargo_list (-1) = Ok [].
Proof.
  apply optimize_truck_space_negative_limit.
  - lia.
  - repeat (apply List.Forall_cons || apply List.Forall_nil); cbn; lia.
Defined.
